(** * ComCAD: DXF primitive extraction, extents and level-of-detail policy

    A shallow embedding of [CORE/cat_loader.py] (attribute resolution,
    block expansion, hatch loops, arc sampling, extents) and of the
    [LayerItem.paint] method of [ui/main.py].

    Numbers.  Python [int] is [Z].  Python [float] is idealised: exact
    rationals [Q] for everything the program only adds, multiplies and
    compares (coordinates, matrices, scales, pen widths), and real numbers
    [R] for the one routine that needs sine and cosine ([discretizar_arco]).
    Rounding, infinities met in the data and NaN are outside that model.
    The two [while] loops of [discretizar_arco] are the one place where
    the idealisation changes what the program does: on reals they always
    exit, on binary64 floats they do not once an angle is so large that
    adding a full turn is absorbed.  They are therefore embedded a second
    time on primitive floats ([advance_end_f], [advance_start_f]), and the
    statements over [R] are restricted to angles of a magnitude where the
    float loop advances ([sane_angle]).

    The parsed document comes from the ezdxf library, which is not part of
    the repository; the record types below keep the attributes the program
    reads from it, under the names the program uses. *)

From Stdlib Require Import ZArith QArith Qabs Qround Reals Lra Lia List String Ascii Bool.
From Stdlib Require Lqa.
From Stdlib Require Import PrimFloat.
From stdpp Require Import base option gmap strings.
Import ListNotations.

Close Scope R_scope.
Close Scope Q_scope.
Local Open Scope string_scope.
Local Open Scope list_scope.
Local Open Scope Z_scope.

(* ================================================================== *)
(** ** Strings as Python uses them *)

(** [str.upper] on the ASCII range. *)
Definition ascii_upper (c : ascii) : ascii :=
  let n := nat_of_ascii c in
  if ((97 <=? n)%nat && (n <=? 122)%nat)%bool then ascii_of_nat (n - 32) else c.

Fixpoint upper (s : string) : string :=
  match s with
  | EmptyString => EmptyString
  | String c r => String (ascii_upper c) (upper r)
  end.

(** A text value ([TEXT], [MTEXT]) may hold any character: it is the list
    of the code points of the Python [str]. *)
Definition Text : Type := list N.

(** The characters [str.strip] removes: those Python counts as white
    space, U+0009 to U+000D, U+001C to U+0020, U+0085, U+00A0, U+1680,
    U+2000 to U+200A, U+2028, U+2029, U+202F, U+205F and U+3000. *)
Definition is_space (c : N) : bool :=
  (((9 <=? c) && (c <=? 13)) || ((28 <=? c) && (c <=? 32))
   || (c =? 133) || (c =? 160) || (c =? 5760)
   || ((8192 <=? c) && (c <=? 8202))
   || (c =? 8232) || (c =? 8233) || (c =? 8239) || (c =? 8287)
   || (c =? 12288))%N%bool.

(** Truth value of [s.strip()]: some character survives the trimming. *)
Fixpoint strip_nonempty (s : Text) : bool :=
  match s with
  | [] => false
  | c :: r => (negb (is_space c) || strip_nonempty r)%bool
  end.

(** Truth value of a string. *)
Definition str_truthy (s : string) : bool :=
  match s with EmptyString => false | _ => true end.

(* ================================================================== *)
(** ** The document graph *)

Definition RGB : Type := (Z * Z * Z)%type.
Definition Vec3 : Type := (Q * Q * Q)%type.
Definition Pt2 : Type := (Q * Q)%type.

(** [ezdxf.math.Matrix44]: sixteen numbers in row-major order.  ezdxf works
    with row vectors: the translation of an affine matrix is its last row
    (indices 12, 13, 14). *)
Definition Row4 : Type := (Q * Q * Q * Q)%type.
Definition Matrix44 : Type := (Row4 * Row4 * Row4 * Row4)%type.

(** A layer table entry: [lay.dxf.color], [lay.dxf.lineweight],
    [lay.dxf.linetype] (each possibly unset), [lay.is_off], [lay.is_frozen]. *)
Record Layer : Type := mkLayer {
  lay_color : option Z;
  lay_lineweight : option Z;
  lay_linetype : option string;
  is_off : bool;
  is_frozen : bool
}.

(** The attributes of [entity.dxf] every entity shares.  [layer] has the
    ezdxf default "0" when the file leaves it out. *)
Record DxfAttribs : Type := mkDxf {
  dxf_layer : string;
  dxf_color : option Z;
  dxf_lineweight : option Z;
  dxf_linetype : option string;
  dxf_invisible : bool
}.

(** An edge of a hatch boundary path, by [EDGE_TYPE].  The two curved
    kinds carry the polyline the program samples from them: for an arc
    edge the list [discretizar_arco cx cy r start end (not ccw) 28]
    returns, for an ellipse edge the 49 points of the parametric loop.
    The sampling itself needs sine and cosine and is specified on its own
    below.  An arc edge is here an arc edge whose sampling has returned:
    the normalising loop of [discretizar_arco] is not part of the
    extraction model, and an edge on which that loop spins for ever (see
    [hatch_arc_span_f]) has no counterpart of this type. *)
Inductive Edge : Type :=
| LineEdge (start end_ : Pt2)
| ArcEdge (pts : list Pt2)
| EllipseEdge (pts : list Pt2)
| OtherEdge.

(** The entity kinds [entity_to_prims] tells apart, by [dxftype()]. *)
Inductive Geometry : Type :=
| LINE (start end_ : Vec3)
| LWPOLYLINE (vertices : list Pt2) (closed : bool)
| POLYLINE (vertices : list Vec3) (is_closed : bool)
| CIRCLE (center : Vec3) (radius : Q)
| ARC (center : Vec3) (radius start_angle end_angle : Q)
| TEXT (insert : Vec3) (height rotation : option Q) (text : option Text)
| MTEXT (insert : Vec3) (char_height rotation : option Q) (plain_text : Text)
| HATCH (paths : list (list Edge)) (solid_fill : bool)
| INSERT (name : string) (matrix44 : option Matrix44)
| OTHER (dxftype : string).

Record Entity : Type := mkEntity {
  dxf : DxfAttribs;
  geom : Geometry
}.

(** [doc.layers], [doc.blocks] and [doc.modelspace()]. *)
Record Document : Type := mkDocument {
  layers : gmap string Layer;
  blocks : gmap string (list Entity);
  modelspace : list Entity
}.

(* ================================================================== *)
(** ** Attribute resolution *)

Definition BYBLOCK : Z := 0.
Definition BYLAYER : Z := 256.

Section Resolver.

(** The ACI palette of ezdxf ([ezdxf.colors.aci2rgb]); [None] where the
    library raises (index out of range). *)
Variable aci2rgb : Z -> option RGB.

Definition _aci_to_rgb (c : Z) : option RGB := aci2rgb c.

Definition _layer_is_visible (doc : Document) (layer_name : string) : bool :=
  match layers doc !! layer_name with
  | None => true
  | Some lay =>
      if is_off lay then false
      else if is_frozen lay then false
      else true
  end.

(** [x is None] *)
Definition is_none {A : Type} (x : option A) : bool :=
  match x with None => true | Some _ => false end.

(** [aci in (v, v')] for an attribute that may be absent. *)
Definition aci_in (aci : option Z) (v v' : Z) : bool :=
  match aci with
  | Some c => ((c =? v) || (c =? v'))%bool
  | None => false
  end.

Definition _effective_color (doc : Document) (entity : Entity)
    (byblock_color : option RGB) : RGB :=
  let aci := dxf_color (dxf entity) in
  (* BYBLOCK: 0 *)
  let early : RGB + option Z :=
    if aci_in aci BYBLOCK 0 then
      match byblock_color with
      | Some rgb => inl rgb
      | None => inr (Some BYLAYER)
      end
    else inr aci in
  match early with
  | inl rgb => rgb
  | inr aci =>
      (* BYLAYER: 256 *)
      let aci :=
        if (is_none aci || aci_in aci BYLAYER 256)%bool then
          match layers doc !! dxf_layer (dxf entity) with
          | Some lay => Some (default 7 (lay_color lay))
          | None => Some 7
          end
        else aci in
      default (200, 200, 210) (_aci_to_rgb (default 7 aci))
  end.

(** [lw in {-1, -2, -3, None}] *)
Definition in_specials (lw : option Z) : bool :=
  match lw with
  | None => true
  | Some v => ((v =? -1) || (v =? -2) || (v =? -3))%bool
  end.

(** [int(lw or 0)] *)
Definition int_or_0 (lw : option Z) : Z := default 0 lw.

Definition _effective_lineweight (doc : Document) (entity : Entity)
    : Z * string :=
  let lw := dxf_lineweight (dxf entity) in
  let '(lw, src) :=
    if in_specials lw then
      match layers doc !! dxf_layer (dxf entity) with
      | Some lay =>
          let lw_layer := Some (default 0 (lay_lineweight lay)) in
          ((if negb (in_specials lw_layer) then lw_layer else Some 0), "LAYER")
      | None => (Some 0, "DEFAULT")
      end
    else (lw, "ENTITY") in
  (int_or_0 lw, src).

Definition lt_unresolved (lt : option string) : bool :=
  match lt with
  | None => true
  | Some s =>
      (negb (str_truthy s) || (upper s =? "BYLAYER")%string
       || (upper s =? "BYBLOCK")%string)%bool
  end.

Definition _effective_linetype (doc : Document) (entity : Entity)
    : string * string :=
  let lt := dxf_linetype (dxf entity) in
  if lt_unresolved lt then
    match layers doc !! dxf_layer (dxf entity) with
    | Some lay =>
        let lt_layer := default "CONTINUOUS" (lay_linetype lay) in
        ((if str_truthy lt_layer then lt_layer else "CONTINUOUS"), "LAYER")
    | None => ("CONTINUOUS", "DEFAULT")
    end
  else (default "" lt, "ENTITY").

End Resolver.

(* ================================================================== *)
(** ** Primitives *)

(** The geometry keys of [Primitive.data], by kind.  [GPoint] is read by
    the painter only; the extractor never builds it. *)
Inductive Payload : Type :=
| GLine (x1 y1 x2 y2 : Q)
| GPolyline (pts : list Pt2) (closed : bool)
| GCircle (cx cy r : Q)
| GArc (cx cy r start end_ : Q)
| GText (x y h rot : Q) (value : Text)
| GMText (x y char_height rot : Q) (value : Text)
| GHatch (loops : list (list Pt2)) (solid : bool)
| GPoint (x y : Q).

(** [Primitive.data]: the keys of [base_data()] and the geometry. *)
Record Data : Type := mkData {
  d_lw : Z;
  d_lw_raw : Z;
  d_lt : string;
  d_lt_raw : string;
  payload : Payload
}.

Record Primitive : Type := mkPrimitive {
  tipo : string;
  layer : string;
  color : RGB;
  data : Data;
  is_block : bool;
  block_name : option string
}.

(* ================================================================== *)
(** ** Transforms *)

Local Open Scope Q_scope.

(** [Matrix44.transform]: the row vector [(x, y, z, 1)] times the matrix. *)
Definition transform (m : Matrix44) (v : Vec3) : Vec3 :=
  let '(x, y, z) := v in
  let '((m0, m1, m2, _), (m4, m5, m6, _), (m8, m9, m10, _),
        (m12, m13, m14, _)) := m in
  (x * m0 + y * m4 + z * m8 + m12,
   x * m1 + y * m5 + z * m9 + m13,
   x * m2 + y * m6 + z * m10 + m14).

(** A row times a matrix. *)
Definition row_times (r : Row4) (b : Matrix44) : Row4 :=
  let '(a0, a1, a2, a3) := r in
  let '((b0, b1, b2, b3), (b4, b5, b6, b7), (b8, b9, b10, b11),
        (b12, b13, b14, b15)) := b in
  (a0 * b0 + a1 * b4 + a2 * b8 + a3 * b12,
   a0 * b1 + a1 * b5 + a2 * b9 + a3 * b13,
   a0 * b2 + a1 * b6 + a2 * b10 + a3 * b14,
   a0 * b3 + a1 * b7 + a2 * b11 + a3 * b15).

(** [a @ b]: the matrix product. *)
Definition matmul (a b : Matrix44) : Matrix44 :=
  let '(r0, r1, r2, r3) := a in
  (row_times r0 b, row_times r1 b, row_times r2 b, row_times r3 b).

Definition apply_point (pt : Vec3) (m : option Matrix44) : Vec3 :=
  match m with
  | Some m => transform m pt
  | None => pt
  end.

(** [a > b] on floats. *)
Definition Qgtb (a b : Q) : bool := negb (Qle_bool a b).

(** [float(v or d)] for an attribute that may be absent. *)
Definition float_or (v : option Q) (d : Q) : Q :=
  match v with
  | Some q => if Qeq_bool q 0 then d else q
  | None => d
  end.

(* ================================================================== *)
(** ** Hatch loops *)

(** The loop variables of [hatch_loops]: [current], [first_set],
    [first_pt]. *)
Definition LoopState : Type := (list Pt2 * bool * option Pt2)%type.

Definition edge_step (ls : LoopState) (edge : Edge) : LoopState :=
  let '(current, first_set, first_pt) := ls in
  match edge with
  | LineEdge p1 p2 =>
      if negb first_set then (current ++ [p1] ++ [p2], true, Some p1)
      else (current ++ [p2], first_set, first_pt)
  | ArcEdge pts =>
      match pts with
      | p0 :: rest =>
          if negb first_set then (current ++ [p0] ++ rest, true, Some p0)
          else (current ++ rest, first_set, first_pt)
      | [] => (current, first_set, first_pt)
      end
  | EllipseEdge pts =>
      match pts with
      | p0 :: _ =>
          if negb first_set then (current ++ pts, true, Some p0)
          else (current ++ pts, first_set, first_pt)
      | [] => (current, first_set, first_pt)
      end
  | OtherEdge => ls
  end.

(** Closes the loop when its last point is off the first one by more than
    [1e-6] on either axis. *)
Definition close_loop (current : list Pt2) (first_pt : option Pt2) : list Pt2 :=
  match first_pt, last current with
  | Some f, Some l =>
      if (Qgtb (Qabs (fst l - fst f)) (1 # 1000000)
          || Qgtb (Qabs (snd l - snd f)) (1 # 1000000))%bool
      then current ++ [f]
      else current
  | _, _ => current
  end.

Definition hatch_loops (paths : list (list Edge)) : list (list Pt2) :=
  fold_left
    (fun loops bpath =>
       let '(current, _, first_pt) := fold_left edge_step bpath ([], false, None) in
       match current with
       | [] => loops
       | _ => loops ++ [close_loop current first_pt]
       end)
    paths [].

Close Scope Q_scope.

(* ================================================================== *)
(** ** Extraction *)

(** The variables one pass mutates: the list [prims], the counter
    [cuenta] and the dictionary [block_repeats]. *)
Record State : Type := mkState {
  prims : list Primitive;
  cuenta : Z;
  block_repeats : gmap string Z
}.

(** A [for] loop whose body may run out of fuel. *)
Definition for_each {A S : Type} (body : A -> S -> option S)
    (xs : list A) (st : S) : option S :=
  fold_left
    (fun acc x => match acc with Some s => body x s | None => None end)
    xs (Some st).

Section Extraer.

Variable aci2rgb : Z -> option RGB.
Variable doc : Document.
(** The keyword arguments of [extraer_primitivas_basicas]. *)
Variable limitar : option Z.
Variable expand_blocks : bool.
Variable max_block_repeats : Z.
Variable max_total_after_blocks : Z.
Variable incluir_texto : bool.
Variable incluir_hatch : bool.

Definition entidad_visible (e : Entity) : bool :=
  if dxf_invisible (dxf e) then false
  else if negb (_layer_is_visible doc (dxf_layer (dxf e))) then false
  else true.

Definition add_primitive (tipo layer : string) (col : RGB) (data : Data)
    (is_block : bool) (block_name : option string) (st : State) : State :=
  {| prims := prims st ++ [mkPrimitive tipo layer col data is_block block_name];
     cuenta := cuenta st + 1;
     block_repeats := block_repeats st |}.

(** [limitar and cuenta >= limitar] *)
Definition limit_reached (st : State) : bool :=
  match limitar with
  | Some l => (negb (l =? 0) && (l <=? cuenta st))%bool
  | None => false
  end.

(** [cuenta >= max_total_after_blocks] *)
Definition total_reached (st : State) : bool :=
  max_total_after_blocks <=? cuenta st.

(** [entity_to_prims].  The recursion of the program is bounded by its
    [depth] argument and not by the shape of the data (a block may insert
    itself), so the function takes [fuel], one unit per nested call, and
    answers [None] when it runs out. *)
Fixpoint entity_to_prims (fuel : nat) (e : Entity)
    (transform : option Matrix44) (depth : nat) (block_name : option string)
    (byblock_color : option RGB) (st : State) : option State :=
  match fuel with
  | O => None
  | S fuel' =>
    if limit_reached st then Some st
    else if total_reached st then Some st
    else if negb (entidad_visible e) then Some st
    else
      let layer := dxf_layer (dxf e) in
      let col := _effective_color aci2rgb doc e byblock_color in
      let lw_val := fst (_effective_lineweight doc e) in
      let lt_val := fst (_effective_linetype doc e) in
      let base_data :=
        mkData lw_val (default 0 (dxf_lineweight (dxf e))) lt_val
          (match dxf_linetype (dxf e) with
           | Some s => if str_truthy s then s else "BYLAYER"
           | None => "BYLAYER"
           end) in
      let emit (tipo : string) (g : Payload) : option State :=
        Some (add_primitive tipo layer col (base_data g)
                (negb (is_none block_name)) block_name st) in
      match geom e with
      | LINE start end_ =>
          let p1 := apply_point start transform in
          let p2 := apply_point end_ transform in
          emit "LINE" (GLine (fst (fst p1)) (snd (fst p1))
                             (fst (fst p2)) (snd (fst p2)))
      | LWPOLYLINE vertices closed =>
          let pts :=
            map (fun v : Pt2 =>
                   let pt := apply_point (fst v, snd v, 0%Q) transform in
                   (fst (fst pt), snd (fst pt))) vertices in
          match pts with
          | [] => Some st
          | _ => emit "POLYLINE" (GPolyline pts closed)
          end
      | POLYLINE vertices is_closed =>
          let pts :=
            map (fun loc : Vec3 =>
                   let pt := apply_point loc transform in
                   (fst (fst pt), snd (fst pt))) vertices in
          match pts with
          | [] => Some st
          | _ => emit "POLYLINE" (GPolyline pts is_closed)
          end
      | CIRCLE center radius =>
          let c := apply_point center transform in
          emit "CIRCLE" (GCircle (fst (fst c)) (snd (fst c)) radius)
      | ARC center radius start_angle end_angle =>
          let c := apply_point center transform in
          emit "ARC" (GArc (fst (fst c)) (snd (fst c)) radius
                           start_angle end_angle)
      | TEXT insert height rotation text =>
          if incluir_texto then
            let ins := apply_point insert transform in
            let h := float_or height 2.5%Q in
            let rot := float_or rotation 0%Q in
            let txt := default [] text in
            if strip_nonempty txt then
              emit "TEXT" (GText (fst (fst ins)) (snd (fst ins)) h rot txt)
            else Some st
          else Some st
      | MTEXT insert char_height rotation plain_text =>
          if incluir_texto then
            let ins := apply_point insert transform in
            let rot := float_or rotation 0%Q in
            let ch := float_or char_height 2.5%Q in
            if strip_nonempty plain_text then
              emit "MTEXT" (GMText (fst (fst ins)) (snd (fst ins)) ch rot
                                   plain_text)
            else Some st
          else Some st
      | HATCH paths solid_fill =>
          if incluir_hatch then
            match hatch_loops paths with
            | [] => Some st
            | loops => emit "HATCH" (GHatch loops solid_fill)
            end
          else Some st
      | INSERT name m =>
          if expand_blocks then
            (* depth and explosion guards *)
            if (8 <? depth)%nat then Some st
            else
              let st1 :=
                {| prims := prims st;
                   cuenta := cuenta st;
                   block_repeats :=
                     <[name := default 0 (block_repeats st !! name) + 1]>
                       (block_repeats st) |} in
              if max_block_repeats <? default 0 (block_repeats st1 !! name)
              then Some st1
              else
                (* the BYBLOCK colour handed to the children *)
                let col_byblock := _effective_color aci2rgb doc e None in
                match blocks doc !! name with
                | Some ((_ :: _) as blk) =>
                    (* [m if transform is None else transform @ m];
                       [transform @ None] raises and the entity is dropped *)
                    let next_transform : option (option Matrix44) :=
                      match transform, m with
                      | None, _ => Some m
                      | Some t, Some m' => Some (Some (matmul t m'))
                      | Some _, None => None
                      end in
                    match next_transform with
                    | Some next =>
                        for_each
                          (fun be =>
                             entity_to_prims fuel' be next (S depth)
                               (Some name) (Some col_byblock))
                          blk st1
                    | None => Some st1
                    end
                | _ => Some st1
                end
          else Some st
      | OTHER _ => Some st
      end
  end.

(** The loop over model space, with its two [break]s. *)
Fixpoint recorrido (fuel : nat) (msp : list Entity) (st : State)
    : option State :=
  match msp with
  | [] => Some st
  | ent :: rest =>
      match entity_to_prims fuel ent None 0 None None st with
      | None => None
      | Some st' =>
          if limit_reached st' then Some st'
          else if total_reached st' then Some st'
          else recorrido fuel rest st'
      end
  end.

Definition estado_inicial : State :=
  {| prims := []; cuenta := 0; block_repeats := ∅ |}.

(** [extraer_primitivas_basicas] on a document already read. *)
Definition extraer_primitivas_basicas (fuel : nat) : option (list Primitive) :=
  option_map prims (recorrido fuel (modelspace doc) estado_inicial).

End Extraer.

(* ================================================================== *)
(** ** Arc sampling *)

Local Open Scope R_scope.

(** [math.radians] *)
Definition radians (deg : R) : R := deg * (PI / 180).

(** [while a1 <= a0: a1 += 2 * math.pi]; one unit of fuel per test of the
    loop condition. *)
Fixpoint advance_end (fuel : nat) (a0 a1 : R) : option R :=
  match fuel with
  | O => None
  | S fuel' =>
      if Rle_dec a1 a0 then advance_end fuel' a0 (a1 + 2 * PI) else Some a1
  end.

(** [while a0 <= a1: a0 += 2 * math.pi] *)
Fixpoint advance_start (fuel : nat) (a0 a1 : R) : option R :=
  match fuel with
  | O => None
  | S fuel' =>
      if Rle_dec a0 a1 then advance_start fuel' (a0 + 2 * PI) a1 else Some a0
  end.

(** The pair [(a0, a1)] after the normalising loop of the chosen
    direction. *)
Definition arc_span (fuel : nat) (start_deg end_deg : R) (ccw : bool)
    : option (R * R) :=
  let a0 := radians start_deg in
  let a1 := radians end_deg in
  if ccw then option_map (fun a1' => (a0, a1')) (advance_end fuel a0 a1)
  else option_map (fun a0' => (a0', a1)) (advance_start fuel a0 a1).

(** [ang] for [i] in [range(steps + 1)] *)
Definition arc_angles (a0 a1 : R) (steps : nat) : list R :=
  map (fun i => a0 + (a1 - a0) * (INR i / INR steps)) (seq 0 (steps + 1)).

Definition point_at (cx cy r ang : R) : R * R :=
  (cx + cos ang * r, cy + sin ang * r).

Definition discretizar_arco (fuel : nat) (cx cy r start_deg end_deg : R)
    (ccw : bool) (seg : nat) : option (list (R * R)) :=
  option_map
    (fun span : R * R =>
       let steps := Nat.max 4 seg in
       map (point_at cx cy r) (arc_angles (fst span) (snd span) steps))
    (arc_span fuel start_deg end_deg ccw).

(** An angle in degrees of a magnitude at which the float loop still
    advances: adding [2 * math.pi] changes a binary64 float as long as it
    lies under [2^55], far above [1e15] degrees. *)
Definition sane_angle (deg : R) : Prop := Rabs deg <= 1000000000000000.

Close Scope R_scope.

(** *** The normalising loops on binary64 floats *)

Local Open Scope float_scope.

(** [math.pi] *)
Definition math_pi : float := 0x1.921fb54442d18p+1.

(** [math.radians] and [math.degrees]: one multiplication each, by
    [pi / 180] and by [180 / pi]. *)
Definition radians_f (deg : float) : float := deg * (math_pi / 180).
Definition degrees_f (rad : float) : float := rad * (180 / math_pi).

(** [while a1 <= a0: a1 += 2 * math.pi] *)
Fixpoint advance_end_f (fuel : nat) (a0 a1 : float) : option float :=
  match fuel with
  | O => None
  | S fuel' =>
      if a1 <=? a0 then advance_end_f fuel' a0 (a1 + 2 * math_pi) else Some a1
  end.

(** [while a0 <= a1: a0 += 2 * math.pi] *)
Fixpoint advance_start_f (fuel : nat) (a0 a1 : float) : option float :=
  match fuel with
  | O => None
  | S fuel' =>
      if a0 <=? a1 then advance_start_f fuel' (a0 + 2 * math_pi) a1 else Some a0
  end.

(** The first lines of [discretizar_arco], up to the end of the loop. *)
Definition arc_span_f (fuel : nat) (start_deg end_deg : float) (ccw : bool)
    : option (float * float) :=
  let a0 := radians_f start_deg in
  let a1 := radians_f end_deg in
  if ccw then option_map (fun a1' => (a0, a1')) (advance_end_f fuel a0 a1)
  else option_map (fun a0' => (a0', a1)) (advance_start_f fuel a0 a1).

(** What [hatch_loops] runs for an arc edge before any point is sampled:
    [start = math.degrees(edge.start_angle)],
    [end = math.degrees(edge.end_angle)] and the call of
    [discretizar_arco] with [ccw = not edge.ccw]. *)
Definition hatch_arc_span_f (fuel : nat) (start_angle end_angle : float)
    (edge_ccw : bool) : option (float * float) :=
  arc_span_f fuel (degrees_f start_angle) (degrees_f end_angle) (negb edge_ccw).

Close Scope float_scope.

(* ================================================================== *)
(** ** Reading [Primitive.data] *)

(** [d[k]] for a numeric key; [None] stands for [KeyError]. *)
Definition num_key (d : Payload) (k : string) : option Q :=
  match d with
  | GLine x1 y1 x2 y2 =>
      if (k =? "x1")%string then Some x1 else if (k =? "y1")%string then Some y1
      else if (k =? "x2")%string then Some x2
      else if (k =? "y2")%string then Some y2 else None
  | GCircle cx cy r =>
      if (k =? "cx")%string then Some cx else if (k =? "cy")%string then Some cy
      else if (k =? "r")%string then Some r else None
  | GArc cx cy r s e =>
      if (k =? "cx")%string then Some cx else if (k =? "cy")%string then Some cy
      else if (k =? "r")%string then Some r
      else if (k =? "start")%string then Some s
      else if (k =? "end")%string then Some e else None
  | GText x y h rot _ =>
      if (k =? "x")%string then Some x else if (k =? "y")%string then Some y
      else if (k =? "h")%string then Some h
      else if (k =? "rot")%string then Some rot else None
  | GMText x y ch rot _ =>
      if (k =? "x")%string then Some x else if (k =? "y")%string then Some y
      else if (k =? "char_height")%string then Some ch
      else if (k =? "rot")%string then Some rot else None
  | GPoint x y =>
      if (k =? "x")%string then Some x else if (k =? "y")%string then Some y
      else None
  | GPolyline _ _ | GHatch _ _ => None
  end.

(** [d.get("pts", [])] *)
Definition get_pts (d : Payload) : list Pt2 :=
  match d with GPolyline pts _ => pts | _ => [] end.

(** [d.get("closed")] as a truth value *)
Definition get_closed (d : Payload) : bool :=
  match d with GPolyline _ closed => closed | _ => false end.

(** [d.get("loops", [])] *)
Definition get_loops (d : Payload) : list (list Pt2) :=
  match d with GHatch loops _ => loops | _ => [] end.

(** [d.get("value", "")] *)
Definition get_value (d : Payload) : Text :=
  match d with GText _ _ _ _ v | GMText _ _ _ _ v => v | _ => [] end.

(* ================================================================== *)
(** ** Extents *)

Local Open Scope Q_scope.

(** The running bounds start at the two infinities. *)
Inductive Bound : Type :=
| NegInf
| Fin (q : Q)
| PosInf.

(** [min(a, x)]: [x] when [x < a], else [a]. *)
Definition min_bound (a : Bound) (x : Q) : Bound :=
  match a with
  | PosInf => Fin x
  | Fin q => if Qgtb q x then Fin x else Fin q
  | NegInf => NegInf
  end.

(** [max(a, x)]: [x] when [x > a], else [a]. *)
Definition max_bound (a : Bound) (x : Q) : Bound :=
  match a with
  | NegInf => Fin x
  | Fin q => if Qgtb x q then Fin x else Fin q
  | PosInf => PosInf
  end.

(** [(xmin, ymin, xmax, ymax)] *)
Definition Box : Type := (Bound * Bound * Bound * Bound)%type.

Definition upd (b : Box) (x y : Q) : Box :=
  let '(xmin, ymin, xmax, ymax) := b in
  (min_bound xmin x, min_bound ymin y, max_bound xmax x, max_bound ymax y).

(** The body of the loop of [calcular_extents_primitivas]; a missing key
    leaves the primitive out. *)
Definition extents_step (b : Box) (p : Primitive) : Box :=
  let d := payload (data p) in
  let t := tipo p in
  if (t =? "LINE")%string then
    match num_key d "x1", num_key d "y1", num_key d "x2", num_key d "y2" with
    | Some x1, Some y1, Some x2, Some y2 => upd (upd b x1 y1) x2 y2
    | _, _, _, _ => b
    end
  else if (t =? "POLYLINE")%string then
    fold_left (fun b pt => upd b (fst pt) (snd pt)) (get_pts d) b
  else if (t =? "CIRCLE")%string then
    match num_key d "cx", num_key d "cy", num_key d "r" with
    | Some cx, Some cy, Some r => upd (upd b (cx - r) (cy - r)) (cx + r) (cy + r)
    | _, _, _ => b
    end
  else if (t =? "ARC")%string then
    match num_key d "cx", num_key d "cy", num_key d "r" with
    | Some cx, Some cy, Some r =>
        (* the box of the whole circle, as an over-approximation *)
        upd (upd b (cx - r) (cy - r)) (cx + r) (cy + r)
    | _, _, _ => b
    end
  else if ((t =? "TEXT")%string || (t =? "MTEXT")%string)%bool then
    match num_key d "x", num_key d "y" with
    | Some x, Some y => upd b x y
    | _, _ => b
    end
  else if (t =? "HATCH")%string then
    fold_left
      (fun b loop => fold_left (fun b pt => upd b (fst pt) (snd pt)) loop b)
      (get_loops d) b
  else b.

Definition calcular_extents_primitivas (prims : list Primitive) : option Box :=
  let '(xmin, ymin, xmax, ymax) :=
    fold_left extents_step prims (PosInf, PosInf, NegInf, NegInf) in
  match xmin with
  | PosInf => None
  | _ => Some (xmin, ymin, xmax, ymax)
  end.

Close Scope Q_scope.

(* ================================================================== *)
(** ** Level of detail: [LayerItem.paint] *)

Local Open Scope Q_scope.

Definition LOD_BOX_THRESHOLD : Q := 0.03.
Definition LOD_SIMPLE_THRESHOLD : Q := 0.12.
Definition LOD_TEXT_THRESHOLD : Q := 0.35.
Definition LINEWEIGHT_SCALE_BASE : Q := 2.2.

(** [a < b] and [a >= b] on floats. *)
Definition Qltb (a b : Q) : bool := negb (Qle_bool b a).
Definition Qgeb (a b : Q) : bool := Qle_bool b a.

(** What one call of [paint] asks of the painter, in order. *)
Inductive Cmd : Type :=
| SetPen (rgb : RGB) (width : Q) (cosmetic : bool) (dash : option (list Z))
| DrawRect (rect : Q * Q * Q * Q)
| DrawLine (x1 y1 x2 y2 : Q)
| DrawEllipse (cx cy rx ry : Q)
| DrawArc (rect : Q * Q * Q * Q) (start sweep : Q)
| DrawText (x y rot point_size : Q) (rgb : RGB) (txt : Text).

Definition pattern_map (lt : string) : option (list Z) :=
  if (lt =? "DASHED")%string then Some [6; 4]%Z
  else if (lt =? "HIDDEN")%string then Some [3; 3]%Z
  else if (lt =? "CENTER")%string then Some [10; 4; 2; 4]%Z
  else if (lt =? "PHANTOM")%string then Some [12; 4; 2; 4; 2; 4]%Z
  else None.

(** [view_scale < LOD_BOX_THRESHOLD] *)
Definition box_tier (view_scale : Q) : bool := Qltb view_scale LOD_BOX_THRESHOLD.

(** [detailed] and [show_text] of [paint] *)
Definition detailed (view_scale : Q) : bool := Qgeb view_scale LOD_SIMPLE_THRESHOLD.
Definition show_text (view_scale : Q) : bool := Qgeb view_scale LOD_TEXT_THRESHOLD.

(** [pen_w] *)
Definition pen_width (view_scale : Q) (lw100 : Z) : Q :=
  if negb (detailed view_scale) then 0
  else if (lw100 <=? 0)%Z then 0
  else
    let pen_w := (inject_Z lw100 / 100) * LINEWEIGHT_SCALE_BASE in
    let pen_w := if Qgtb view_scale 0.6 then pen_w * 1.15 else pen_w in
    if Qltb pen_w 0.4 then 0.4 else pen_w.

(** [dash] *)
Definition dash_of (view_scale : Q) (lt : string) : option (list Z) :=
  if detailed view_scale then pattern_map lt else None.

(** [range(0, m, step)] *)
Definition range_step (m step : nat) : list nat :=
  map (fun k => (k * step)%nat) (seq 0 ((m + step - 1) / step)).

(** The drawing calls for one primitive, after its pen is set. *)
Definition draw_prim (view_scale : Q) (simplify : bool) (p : Primitive)
    : list Cmd :=
  let d := payload (data p) in
  let t := tipo p in
  let pen_w := pen_width view_scale (d_lw (data p)) in
  if (t =? "LINE")%string then
    match num_key d "x1", num_key d "y1", num_key d "x2", num_key d "y2" with
    | Some x1, Some y1, Some x2, Some y2 => [DrawLine x1 y1 x2 y2]
    | _, _, _, _ => []
    end
  else if (t =? "POLYLINE")%string then
    let pts := get_pts d in
    match pts with
    | [] => []
    | first :: _ =>
        let step :=
          if (simplify && (400 <? length pts)%nat && Qltb view_scale 0.5)%bool
          then 3%nat else 1%nat in
        map (fun i =>
               let a := nth i pts (0, 0) in
               let b := nth (i + 1) pts (0, 0) in
               DrawLine (fst a) (snd a) (fst b) (snd b))
            (range_step (length pts - 1) step)
        ++ (if (get_closed d && (2 <? length pts)%nat)%bool then
              let l := List.last pts (0, 0) in
              [DrawLine (fst l) (snd l) (fst first) (snd first)]
            else [])
    end
  else if (t =? "CIRCLE")%string then
    match num_key d "cx", num_key d "cy", num_key d "r" with
    | Some cx, Some cy, Some r => [DrawEllipse cx cy r r]
    | _, _, _ => []
    end
  else if (t =? "ARC")%string then
    match num_key d "cx", num_key d "cy", num_key d "r",
          num_key d "start", num_key d "end" with
    | Some cx, Some cy, Some r, Some start, Some end_ =>
        let sweep := end_ - start in
        let sweep := if Qltb sweep 0 then sweep + 360 else sweep in
        [DrawArc (cx - r, cy - r, r * 2, r * 2) start sweep]
    | _, _, _, _, _ => []
    end
  else if ((t =? "TEXT")%string && show_text view_scale)%bool then
    let txt := get_value d in
    if negb (strip_nonempty txt) then []
    else
      match num_key d "x", num_key d "y" with
      | Some x, Some y =>
          let h := default 2.5 (num_key d "h") in
          let rot := default 0 (num_key d "rot") in
          [DrawText x y rot (h * view_scale * 1.4) (color p) txt]
      | _, _ => []
      end
  else if (t =? "POINT")%string then
    match num_key d "x", num_key d "y" with
    | Some x, Some y =>
        let size := 3 + (if Qgtb pen_w 0 then pen_w else 1) in
        [DrawEllipse x y size size]
    | _, _ => []
    end
  else [].

(** The pen of one primitive and then its drawing calls.  [p.color] is a
    non-empty tuple, hence true, so the grey fallback of the program is
    never taken. *)
Definition paint_prim (view_scale : Q) (simplify : bool) (p : Primitive)
    : list Cmd :=
  let pen_w := pen_width view_scale (d_lw (data p)) in
  let dash := dash_of view_scale (upper (d_lt (data p))) in
  SetPen (color p) pen_w (Qeq_bool pen_w 0)
         (match dash with Some (_ :: _) => dash | _ => None end)
  :: draw_prim view_scale simplify p.

(** [LayerItem.paint]: [view_scale] is [painter.worldTransform().m11()],
    [simplify] is [self._simplify_fn()], [rect] is [self.rect()]. *)
Definition paint (view_scale : Q) (simplify : bool) (rect : Q * Q * Q * Q)
    (primitives : list Primitive) : list Cmd :=
  if box_tier view_scale then
    [SetPen (80, 90, 100)%Z 0 false None; DrawRect rect]
  else
    flat_map (paint_prim view_scale simplify) primitives.

Close Scope Q_scope.

(* ================================================================== *)
(** ** Reference definitions and sample documents *)

(** The lineweight rule in words: a raw value that is a sentinel or absent
    gives way to the layer's value, or to 0 when the layer's value is a
    sentinel or unset, both tagged LAYER; without the layer the value is 0,
    tagged DEFAULT; any other raw value is kept, tagged ENTITY. *)
Definition lineweight_rule (doc : Document) (entity : Entity) : Z * string :=
  let from_layer :=
    match layers doc !! dxf_layer (dxf entity) with
    | Some lay =>
        match lay_lineweight lay with
        | Some w => if in_specials (Some w) then (0, "LAYER") else (w, "LAYER")
        | None => (0, "LAYER")
        end
    | None => (0, "DEFAULT")
    end in
  match dxf_lineweight (dxf entity) with
  | Some v => if in_specials (Some v) then from_layer else (v, "ENTITY")
  | None => from_layer
  end.

(** A lineweight the DXF format allows: a sentinel or a width. *)
Definition lineweight_valid (lw : option Z) : Prop :=
  match lw with
  | Some v => in_specials (Some v) = true \/ 0 <= v
  | None => True
  end.

(** The counter is the length of the list and stays under the cap. *)
Definition counted (max_total_after_blocks : Z) (st : State) : Prop :=
  cuenta st = Z.of_nat (length (prims st))
  /\ cuenta st <= max_total_after_blocks.

(** Three entries of the ACI palette: red, green and white. *)
Definition aci_basic (c : Z) : option RGB :=
  if c =? 1 then Some (255, 0, 0)
  else if c =? 3 then Some (0, 255, 0)
  else if c =? 7 then Some (255, 255, 255)
  else None.

(** [Matrix44()], [Matrix44.translate] and [Matrix44.scale] of ezdxf. *)
Definition identity44 : Matrix44 :=
  ((1, 0, 0, 0), (0, 1, 0, 0), (0, 0, 1, 0), (0, 0, 0, 1))%Q.
Definition translate44 (dx dy dz : Q) : Matrix44 :=
  ((1, 0, 0, 0), (0, 1, 0, 0), (0, 0, 1, 0), (dx, dy, dz, 1))%Q.
Definition scale44 (sx sy sz : Q) : Matrix44 :=
  ((sx, 0, 0, 0), (0, sy, 0, 0), (0, 0, sz, 0), (0, 0, 0, 1))%Q.

Definition attribs (layer : string) (color : option Z) : DxfAttribs :=
  mkDxf layer color None None false.

(** Layer "0" is white, layer "MID" is green, layer "THIN" has the
    DEFAULT lineweight. *)
Definition capas : gmap string Layer :=
  <["0" := mkLayer (Some 7) None None false false]>
  (<["MID" := mkLayer (Some 3) None None false false]>
  (<["THIN" := mkLayer (Some 7) (Some (-3)) None false false]> ∅)).

(** Model space inserts OUTER with colour [c]; OUTER holds an insert of
    INNER on layer "MID" with colour BYBLOCK; INNER holds a line with
    colour BYBLOCK. *)
Definition doc_byblock (c : Z) : Document :=
  {| layers := capas;
     blocks :=
       <["INNER" := [mkEntity (attribs "0" (Some 0))
                       (LINE (0, 0, 0)%Q (1, 0, 0)%Q)]]>
       (<["OUTER" := [mkEntity (attribs "MID" (Some 0))
                        (INSERT "INNER" (Some identity44))]]> ∅);
     modelspace :=
       [mkEntity (attribs "0" (Some c)) (INSERT "OUTER" (Some identity44))] |}.

(** Block B, a line and a hatch over the same base, inserted at (10, 20). *)
Definition doc_hatch : Document :=
  {| layers := capas;
     blocks :=
       <["B" := [mkEntity (attribs "0" None) (LINE (0, 0, 0)%Q (4, 0, 0)%Q);
                 mkEntity (attribs "0" None)
                   (HATCH [[LineEdge (0, 0)%Q (4, 0)%Q;
                            LineEdge (4, 0)%Q (4, 3)%Q]] true)]]> ∅;
     modelspace :=
       [mkEntity (attribs "0" None) (INSERT "B" (Some (translate44 10 20 0)))] |}.

(** OUTER is placed at (10, 0, 0) and holds INNER scaled by 2; INNER holds
    the line from (1, 0, 0) to (2, 0, 0). *)
Definition doc_nested : Document :=
  {| layers := capas;
     blocks :=
       <["INNER" := [mkEntity (attribs "0" None)
                       (LINE (1, 0, 0)%Q (2, 0, 0)%Q)]]>
       (<["OUTER" := [mkEntity (attribs "0" None)
                        (INSERT "INNER" (Some (scale44 2 2 2)))]]> ∅);
     modelspace :=
       [mkEntity (attribs "0" None) (INSERT "OUTER" (Some (translate44 10 0 0)))] |}.

(** Block A holds a line and an insert of A. *)
Definition doc_cycle : Document :=
  {| layers := capas;
     blocks :=
       <["A" := [mkEntity (attribs "0" None) (LINE (1, 0, 0)%Q (2, 0, 0)%Q);
                 mkEntity (attribs "0" None)
                   (INSERT "A" (Some (translate44 1 0 0)))]]> ∅;
     modelspace :=
       [mkEntity (attribs "0" None) (INSERT "A" (Some (translate44 10 0 0)))] |}.

(** Block X holds a line and ten inserts of X. *)
Definition doc_tenfold : Document :=
  {| layers := capas;
     blocks :=
       <["X" := mkEntity (attribs "0" None) (LINE (1, 0, 0)%Q (2, 0, 0)%Q)
                :: repeat (mkEntity (attribs "0" None)
                             (INSERT "X" (Some (translate44 1 0 0)))) 10]> ∅;
     modelspace :=
       [mkEntity (attribs "0" None) (INSERT "X" (Some (translate44 10 0 0)))] |}.

(** One line in model space. *)
Definition doc_line : Document :=
  {| layers := capas;
     blocks := ∅;
     modelspace :=
       [mkEntity (attribs "0" None) (LINE (0, 0, 0)%Q (10, 5, 0)%Q)] |}.

(** The primitive of a line, a circle and an arc on layer "0". *)
Definition prim_of (tipo : string) (g : Payload) : Primitive :=
  mkPrimitive tipo "0" (255, 255, 255) (mkData 0 0 "CONTINUOUS" "BYLAYER" g)
    false None.

(** Equality of points, coordinate by coordinate. *)
Definition vec_eq (u v : Vec3) : Prop :=
  (fst (fst u) == fst (fst v) /\ snd (fst u) == snd (fst v)
   /\ snd u == snd v)%Q.

(** An affine matrix: the rows of the linear part and of the translation,
    with last column (0, 0, 0, 1), as [Insert.matrix44] builds it. *)
Definition affine44 (ux uy uz origin : Vec3) : Matrix44 :=
  let '(a0, a1, a2) := ux in
  let '(a4, a5, a6) := uy in
  let '(a8, a9, a10) := uz in
  let '(a12, a13, a14) := origin in
  ((a0, a1, a2, 0), (a4, a5, a6, 0), (a8, a9, a10, 0), (a12, a13, a14, 1))%Q.


(** The colour index a BYLAYER entity ends up with: the layer's own, or 7
    when the layer is missing or has none. *)
Definition layer_aci (doc : Document) (layer_name : string) : Z :=
  match layers doc !! layer_name with
  | Some lay => default 7 (lay_color lay)
  | None => 7
  end.

(** The pen width of the detailed tier in words: nothing for a lineweight
    that is not positive, else [(lw / 100) * 2.2], times 1.15 above scale
    0.6, and 0.4 when that is thinner than 0.4. *)
Definition detailed_width (view_scale : Q) (lw : Z) : Q :=
  if (lw <=? 0)%Z then 0%Q
  else
    let w := (inject_Z lw / 100 * 2.2)%Q in
    let w := if Qgtb view_scale 0.6 then (w * 1.15)%Q else w in
    if Qltb w 0.4 then 0.4%Q else w.

(** The dash pattern of the detailed tier: by name, for the four names
    the painter knows. *)
Definition detailed_dash (lt : string) : option (list Z) :=
  pattern_map (upper lt).

(** The texts a list of painter calls draws. *)
Definition texts_of (cmds : list Cmd) : list Text :=
  flat_map
    (fun c => match c with
              | DrawText _ _ _ _ _ txt => [txt]
              | _ => []
              end)
    cmds.

(** The pens a list of painter calls sets. *)
Definition pens_of (cmds : list Cmd) : list (Q * bool * option (list Z)) :=
  flat_map
    (fun c => match c with
              | SetPen _ w cosmetic dash => [(w, cosmetic, dash)]
              | _ => []
              end)
    cmds.


(** The pairs of neighbouring points of a polyline. *)
Fixpoint consecutive (pts : list Pt2) : list (Pt2 * Pt2) :=
  match pts with
  | a :: (b :: _) as rest => (a, b) :: consecutive rest
  | _ => []
  end.

(** The painter call for one segment. *)
Definition line_between (ab : Pt2 * Pt2) : Cmd :=
  DrawLine (fst (fst ab)) (snd (fst ab)) (fst (snd ab)) (snd (snd ab)).


(** The geometry keys a primitive of kind [tipo] must carry. *)
Definition payload_matches (tipo : string) (g : Payload) : bool :=
  match g with
  | GLine _ _ _ _ => (tipo =? "LINE")%string
  | GPolyline _ _ => (tipo =? "POLYLINE")%string
  | GCircle _ _ _ => (tipo =? "CIRCLE")%string
  | GArc _ _ _ _ _ => (tipo =? "ARC")%string
  | GText _ _ _ _ _ => (tipo =? "TEXT")%string
  | GMText _ _ _ _ _ => (tipo =? "MTEXT")%string
  | GHatch _ _ => (tipo =? "HATCH")%string
  | GPoint _ _ => false
  end.

(** [not l] for a list *)
Definition is_nil {A : Type} (l : list A) : bool :=
  match l with [] => true | _ => false end.

(** A payload with something to show: a polyline with a vertex, a text
    that is not blank, a hatch with a loop. *)
Definition payload_populated (g : Payload) : bool :=
  match g with
  | GPolyline pts _ => negb (is_nil pts)
  | GText _ _ _ _ value | GMText _ _ _ _ value => strip_nonempty value
  | GHatch loops _ => negb (is_nil loops)
  | _ => true
  end.

(** What holds of every primitive one pass emits. *)
Definition emitted_sound (doc : Document) (incluir_texto incluir_hatch : bool)
    (p : Primitive) : Prop :=
  _layer_is_visible doc (layer p) = true
  /\ is_block p = negb (is_none (block_name p))
  /\ in_specials (Some (d_lw (data p))) = false
  /\ str_truthy (d_lt (data p)) = true
  /\ payload_matches (tipo p) (payload (data p)) = true
  /\ payload_populated (payload (data p)) = true
  /\ (((tipo p =? "TEXT")%string || (tipo p =? "MTEXT")%string)%bool = true ->
      incluir_texto = true)
  /\ ((tipo p =? "HATCH")%string = true -> incluir_hatch = true).


(** Two points no farther apart than the tolerance [1e-6] on each axis. *)
Definition near (a b : Pt2) : Prop :=
  (Qabs (fst a - fst b) <= 1 # 1000000)%Q
  /\ (Qabs (snd a - snd b) <= 1 # 1000000)%Q.

(** A loop that has points and ends where it starts, up to the
    tolerance. *)
Definition loop_closed (loop : list Pt2) : Prop :=
  match loop, last loop with
  | f :: _, Some l => near l f
  | _, _ => False
  end.

(** The loop variables are either untouched or hold a first point that
    heads [current]. *)
Definition loop_started (ls : LoopState) : Prop :=
  let '(current, first_set, first_pt) := ls in
  (current = [] /\ first_set = false /\ first_pt = None)
  \/ exists f rest, current = f :: rest /\ first_set = true /\ first_pt = Some f.

(** The body of the loop over the boundary paths of a hatch. *)
Definition hatch_step (loops : list (list Pt2)) (bpath : list Edge)
    : list (list Pt2) :=
  let '(current, _, first_pt) := fold_left edge_step bpath ([], false, None) in
  match current with
  | [] => loops
  | _ => loops ++ [close_loop current first_pt]
  end.


(** A point at distance [r] from the centre [(cx, cy)]. *)
Definition on_circle (cx cy r : R) (p : R * R) : Prop :=
  ((fst p - cx) * (fst p - cx) + (snd p - cy) * (snd p - cy) = r * r)%R.


(** The points a primitive contributes to the extents, by kind and by the
    keys it carries. *)
Definition governing_points (p : Primitive) : list Pt2 :=
  let d := payload (data p) in
  let t := tipo p in
  if (t =? "LINE")%string then
    match num_key d "x1", num_key d "y1", num_key d "x2", num_key d "y2" with
    | Some x1, Some y1, Some x2, Some y2 => [(x1, y1); (x2, y2)]
    | _, _, _, _ => []
    end
  else if (t =? "POLYLINE")%string then get_pts d
  else if ((t =? "CIRCLE")%string || (t =? "ARC")%string)%bool then
    match num_key d "cx", num_key d "cy", num_key d "r" with
    | Some cx, Some cy, Some r => [(cx - r, cy - r); (cx + r, cy + r)]%Q
    | _, _, _ => []
    end
  else if ((t =? "TEXT")%string || (t =? "MTEXT")%string)%bool then
    match num_key d "x", num_key d "y" with
    | Some x, Some y => [(x, y)]
    | _, _ => []
    end
  else if (t =? "HATCH")%string then concat (get_loops d)
  else [].

(** A lower and an upper bound that hold of [x]. *)
Definition bound_below (b : Bound) (x : Q) : Prop :=
  match b with
  | NegInf => True
  | Fin q => (q <= x)%Q
  | PosInf => False
  end.

Definition bound_above (b : Bound) (x : Q) : Prop :=
  match b with
  | PosInf => True
  | Fin q => (x <= q)%Q
  | NegInf => False
  end.

Definition box_contains (b : Box) (pt : Pt2) : Prop :=
  let '(xmin, ymin, xmax, ymax) := b in
  bound_below xmin (fst pt) /\ bound_below ymin (snd pt)
  /\ bound_above xmax (fst pt) /\ bound_above ymax (snd pt).

(** [upd] on a point given as a pair. *)
Definition upd_point (b : Box) (pt : Pt2) : Box := upd b (fst pt) (snd pt).


(* ================================================================== *)
(** ** Zoom to extents *)

(** [max(a, b)] on floats: [b] when [b > a], else [a]. *)
Definition py_max (a b : Q) : Q := if Qgtb b a then b else a.

(** [aplicar_zoom_extents]: the rectangle [(x, y, width, height)] handed
    to [view.fitInView], [None] when the view is left alone. *)
Definition aplicar_zoom_extents (extents : option (Q * Q * Q * Q))
    (margin : Q) : option (Q * Q * Q * Q) :=
  match extents with
  | None => None
  | Some (xmin, ymin, xmax, ymax) =>
      let w := py_max (1 # 1000000) (xmax - xmin) in
      let h := py_max (1 # 1000000) (ymax - ymin) in
      let dx := w * margin in
      let dy := h * margin in
      Some (xmin - dx, ymin - dy, w + 2 * dx, h + 2 * dy)
  end%Q.

(* ================================================================== *)
(** ** Grid snap *)

(** [round(x)] of Python on a float: the nearest integer, the even one
    when [x] lies halfway. *)
Definition py_round (x : Q) : Z :=
  let f := Qfloor x in
  match (x - inject_Z f ?= 1 # 2)%Q with
  | Lt => f
  | Gt => f + 1
  | Eq => if Z.even f then f else f + 1
  end.

(** [DrawingView._grid_snap] for the grid spacing [grid_minor]. *)
Definition _grid_snap (grid_minor : Z) (point : Pt2) : Pt2 :=
  let gx := py_round (fst point / inject_Z grid_minor) * grid_minor in
  let gy := py_round (snd point / inject_Z grid_minor) * grid_minor in
  (inject_Z gx, inject_Z gy).

(* ================================================================== *)
(** * Properties *)

(** ** Loops with fuel *)

Lemma for_each_none {A S : Type} (body : A -> S -> option S) (xs : list A) :
  fold_left (fun acc x => match acc with Some s => body x s | None => None end)
    xs None = None.
Proof. induction xs as [|x xs IH]; simpl; auto. Qed.

Lemma for_each_cons {A S : Type} (body : A -> S -> option S) x xs st :
  for_each body (x :: xs) st =
  match body x st with Some s => for_each body xs s | None => None end.
Proof.
  unfold for_each; simpl. destruct (body x st); auto using for_each_none.
Qed.

Lemma for_each_preserves {A S : Type} (P : S -> Prop)
    (body : A -> S -> option S) (xs : list A) :
  (forall x s s', P s -> body x s = Some s' -> P s') ->
  forall st st', P st -> for_each body xs st = Some st' -> P st'.
Proof.
  intros Hbody. induction xs as [|x xs IH]; intros st st' HP.
  - unfold for_each; simpl. congruence.
  - rewrite for_each_cons. destruct (body x st) as [s|] eqn:E; [|discriminate].
    apply IH. eauto.
Qed.

Lemma for_each_returns {A S : Type} (body : A -> S -> option S) (xs : list A) :
  (forall x s, exists s', body x s = Some s') ->
  forall st, exists st', for_each body xs st = Some st'.
Proof.
  intros Hbody. induction xs as [|x xs IH]; intros st.
  - exists st. reflexivity.
  - rewrite for_each_cons. destruct (Hbody x st) as [s ->]. apply IH.
Qed.

Lemma for_each_ext {A S : Type} (f g : A -> S -> option S) (xs : list A) :
  (forall x s, f x s = g x s) ->
  forall st, for_each f xs st = for_each g xs st.
Proof.
  intros Hfg. induction xs as [|x xs IH]; intros st; [reflexivity|].
  rewrite !for_each_cons, Hfg. destruct (g x st); auto.
Qed.

(** ** The extraction pass *)

Section ExtraerFacts.

Variable aci2rgb : Z -> option RGB.
Variable doc : Document.
Variable limitar : option Z.
Variable expand_blocks : bool.
Variable max_block_repeats : Z.
Variable max_total_after_blocks : Z.
Variable incluir_texto : bool.
Variable incluir_hatch : bool.

Local Abbreviation etp :=
  (entity_to_prims aci2rgb doc limitar expand_blocks max_block_repeats
     max_total_after_blocks incluir_texto incluir_hatch).
Local Abbreviation walk :=
  (recorrido aci2rgb doc limitar expand_blocks max_block_repeats
     max_total_after_blocks incluir_texto incluir_hatch).
Local Abbreviation under_cap := (counted max_total_after_blocks).

Lemma add_primitive_counted tipo layer col d isb bn st :
  under_cap st -> total_reached max_total_after_blocks st = false ->
  under_cap (add_primitive tipo layer col d isb bn st).
Proof.
  unfold counted, total_reached, add_primitive; simpl.
  intros [Hlen Hcap] Hlt. apply Z.leb_gt in Hlt.
  rewrite length_app; simpl. lia.
Qed.

(** One call never takes the counter past the cap. *)
Lemma entity_to_prims_counted fuel :
  forall e t depth bn bc st st',
    under_cap st -> etp fuel e t depth bn bc st = Some st' -> under_cap st'.
Proof.
  induction fuel as [|fuel IH]; intros e t depth bn bc st st' Hc; simpl;
    [discriminate|].
  destruct (limit_reached limitar st); [congruence|].
  destruct (total_reached max_total_after_blocks st) eqn:Ht; [congruence|].
  destruct (negb (entidad_visible doc e)); [congruence|].
  destruct (geom e);
    repeat case_match; intros; simplify_eq;
    try assumption; try (apply add_primitive_counted; assumption).
  all: match goal with
       | H : for_each _ _ _ = Some _ |- _ =>
           eapply (for_each_preserves under_cap) in H;
           [exact H | intros ? ? ? ? ?; eapply IH; eassumption | exact Hc]
       end.
Qed.

Lemma recorrido_counted fuel msp :
  forall st st', under_cap st -> walk fuel msp st = Some st' -> under_cap st'.
Proof.
  induction msp as [|ent rest IH]; intros st st' Hc; simpl; [congruence|].
  destruct (etp fuel ent None 0%nat None None st) as [s|] eqn:E; [|discriminate].
  apply entity_to_prims_counted in E; [|exact Hc].
  repeat case_match; intros; simplify_eq; eauto.
Qed.

(** A call at depth [d] returns as soon as it has one unit of fuel for
    itself and one for each level down to depth 9. *)
Lemma entity_to_prims_returns fuel :
  forall e t depth bn bc st,
    (1 <= fuel)%nat -> (10 <= fuel + depth)%nat ->
    exists st', etp fuel e t depth bn bc st = Some st'.
Proof.
  induction fuel as [|fuel IH]; intros e t depth bn bc st H1 H10; [lia|].
  simpl.
  destruct (limit_reached limitar st); [eauto|].
  destruct (total_reached max_total_after_blocks st); [eauto|].
  destruct (negb (entidad_visible doc e)); [eauto|].
  destruct (geom e); repeat case_match; eauto.
  all: apply for_each_returns; intros be s;
    apply IH; match goal with H : (8 <? _)%nat = false |- _ =>
                apply Nat.ltb_ge in H; lia end.
Qed.

Lemma recorrido_returns fuel msp :
  forall st, (10 <= fuel)%nat -> exists st', walk fuel msp st = Some st'.
Proof.
  induction msp as [|ent rest IH]; intros st Hf; simpl; [eauto|].
  destruct (entity_to_prims_returns fuel ent None 0%nat None None st)
    as [s ->]; [lia|lia|].
  repeat case_match; eauto.
Qed.

(** An INSERT met deeper than 8 changes nothing. *)
Lemma insert_beyond_cap fuel attrs name m t depth bn bc st :
  etp (S fuel) (mkEntity attrs (INSERT name m)) t (9 + depth) bn bc st = Some st.
Proof.
  simpl. repeat case_match; reflexivity.
Qed.

End ExtraerFacts.

(** A limit of 0 behaves as no limit. *)
Lemma entity_to_prims_limit_0 aci2rgb doc expand mbr mtab it ih fuel :
  forall e t depth bn bc st,
    entity_to_prims aci2rgb doc (Some 0) expand mbr mtab it ih fuel e t depth
      bn bc st =
    entity_to_prims aci2rgb doc None expand mbr mtab it ih fuel e t depth
      bn bc st.
Proof.
  induction fuel as [|fuel IH]; intros e t depth bn bc st; [reflexivity|].
  simpl. repeat case_match; try reflexivity; try discriminate.
  all: apply for_each_ext; intros; apply IH.
Qed.

Lemma recorrido_limit_0 aci2rgb doc expand mbr mtab it ih fuel msp :
  forall st,
    recorrido aci2rgb doc (Some 0) expand mbr mtab it ih fuel msp st =
    recorrido aci2rgb doc None expand mbr mtab it ih fuel msp st.
Proof.
  induction msp as [|ent rest IH]; intros st; [reflexivity|].
  simpl. rewrite entity_to_prims_limit_0.
  repeat case_match; try reflexivity; try discriminate; apply IH.
Qed.

(** ** Transforms *)

(** With row vectors the product [a @ b] transforms by [a] first. *)
Lemma transform_matmul ux uy uz origin (b : Matrix44) (v : Vec3) :
  vec_eq (transform (matmul (affine44 ux uy uz origin) b) v)
         (transform b (transform (affine44 ux uy uz origin) v)).
Proof.
  destruct ux as [[a0 a1] a2], uy as [[a4 a5] a6], uz as [[a8 a9] a10],
    origin as [[a12 a13] a14], v as [[x y] z].
  destruct b as [[[[[[b0 b1] b2] b3] [[[b4 b5] b6] b7]] [[[b8 b9] b10] b11]]
                   [[[b12 b13] b14] b15]].
  unfold vec_eq; simpl. repeat split; ring.
Qed.

(** ** Claims on the extraction pass *)

(** C1 (the code departs from the claim).  Two levels deep, with the
    intermediate Insert and the line both BYBLOCK, the claim gives the line
    the colour of the outermost Insert.  The program resolves the colour an
    Insert hands down with [byblock_color=None], so the intermediate Insert
    falls back to its own layer: whatever colour [c] the outermost Insert
    has, the line comes out in the green of layer "MID", while the
    outermost Insert with colour 1 resolves to red. *)
Theorem C1_byblock_stops_at_intermediate_insert :
  (forall c : Z,
     extraer_primitivas_basicas aci_basic (doc_byblock c) None true 8000
       250000 true true 10 =
     Some [mkPrimitive "LINE" "0" (0, 255, 0)
             (mkData 0 0 "CONTINUOUS" "BYLAYER" (GLine 0 0 1 0))
             true (Some "INNER")])
  /\ _effective_color aci_basic (doc_byblock 1)
       (mkEntity (attribs "0" (Some 1)) (INSERT "OUTER" (Some identity44)))
       None = (255, 0, 0).
Proof.
  split; [intros c|]; vm_compute; reflexivity.
Qed.

(** C2 (the code departs from the claim).  The claim wants every
    coordinate of every primitive in model space.  The HATCH branch never
    uses the accumulated transform: a hatch yields the same state under any
    transform as under none, and in block B inserted at (10, 20) the line
    is moved to (10, 20)-(14, 20) while the hatch loop stays at the
    block-local (0, 0), (4, 0), (4, 3), (0, 0). *)
Theorem C2_hatch_loops_left_in_block_space :
  (forall aci2rgb doc limitar expand mbr mtab it ih fuel attrs paths solid
          t depth bn bc st,
     entity_to_prims aci2rgb doc limitar expand mbr mtab it ih fuel
       (mkEntity attrs (HATCH paths solid)) t depth bn bc st =
     entity_to_prims aci2rgb doc limitar expand mbr mtab it ih fuel
       (mkEntity attrs (HATCH paths solid)) None depth bn bc st)
  /\ extraer_primitivas_basicas aci_basic doc_hatch None true 8000 250000
       true true 10 =
     Some [mkPrimitive "LINE" "0" (255, 255, 255)
             (mkData 0 0 "CONTINUOUS" "BYLAYER" (GLine 10 20 14 20))
             true (Some "B");
           mkPrimitive "HATCH" "0" (255, 255, 255)
             (mkData 0 0 "CONTINUOUS" "BYLAYER"
                (GHatch [[(0, 0); (4, 0); (4, 3); (0, 0)]]%Q true))
             true (Some "B")].
Proof.
  split.
  - intros. destruct fuel; reflexivity.
  - vm_compute; reflexivity.
Qed.

(** C3 (the code departs from the claim).  The claim composes a nested
    placement as inner first, then outer.  The program builds
    [transform @ m], parent on the left, and ezdxf transforms row vectors,
    so the parent is applied first and the child's own placement last.
    With OUTER placed at (10, 0, 0) and INNER scaled by 2 inside it, the
    point (1, 0, 0) is emitted at x = 22 and not at the x = 12 that inner
    first, outer second gives. *)
Theorem C3_nested_insert_applies_parent_first :
  (forall ux uy uz origin m v,
     vec_eq (apply_point v (Some (matmul (affine44 ux uy uz origin) m)))
            (apply_point (apply_point v (Some (affine44 ux uy uz origin)))
               (Some m)))
  /\ extraer_primitivas_basicas aci_basic doc_nested None true 8000 250000
       true true 10 =
     Some [mkPrimitive "LINE" "0" (255, 255, 255)
             (mkData 0 0 "CONTINUOUS" "BYLAYER" (GLine 22 0 24 0))
             true (Some "INNER")]
  /\ apply_point (apply_point (1, 0, 0)%Q (Some (scale44 2 2 2)))
       (Some (translate44 10 0 0)) = (12, 0, 0)%Q.
Proof.
  split; [|split].
  - intros. apply transform_matmul.
  - vm_compute; reflexivity.
  - vm_compute; reflexivity.
Qed.

(** C4.  With a cap that is a count (not negative), the pass returns, and
    the list it returns is no longer than [max_total_after_blocks],
    whatever the document and the other options. *)
Theorem C4_never_more_than_max_total
    (aci2rgb : Z -> option RGB) (doc : Document) (limitar : option Z)
    (expand_blocks : bool) (max_block_repeats max_total_after_blocks : Z)
    (incluir_texto incluir_hatch : bool) (fuel : nat) :
  0 <= max_total_after_blocks ->
  exists ps,
    extraer_primitivas_basicas aci2rgb doc limitar expand_blocks
      max_block_repeats max_total_after_blocks incluir_texto incluir_hatch
      (10 + fuel) = Some ps
    /\ Z.of_nat (length ps) <= max_total_after_blocks.
Proof.
  intros Hcap. unfold extraer_primitivas_basicas.
  destruct (recorrido_returns aci2rgb doc limitar expand_blocks
              max_block_repeats max_total_after_blocks incluir_texto
              incluir_hatch (10 + fuel) (modelspace doc) estado_inicial)
    as [st Hst]; [lia|].
  rewrite Hst; simpl. exists (prims st). split; [reflexivity|].
  apply recorrido_counted in Hst.
  - destruct Hst as [Hlen Hle]. lia.
  - split; simpl; lia.
Qed.

(** The block with ten inserts of itself, at the default settings. *)
Lemma C4_witness_tenfold :
  0 <= 250000
  /\ exists ps,
       extraer_primitivas_basicas aci_basic doc_tenfold None true 8000 250000
         true true (10 + 0) = Some ps
       /\ Z.of_nat (length ps) <= 250000.
Proof.
  split; [lia|]. apply C4_never_more_than_max_total. lia.
Defined.

(** The same block under a cap of 500: exactly 500 primitives. *)
Example tenfold_cut_at_500 :
  option_map (@length Primitive)
    (extraer_primitivas_basicas aci_basic doc_tenfold None true 8000 500
       true true 10) = Some 500%nat.
Proof. vm_compute; reflexivity. Qed.

(** The block that inserts itself: its line is emitted at depths 1 to 9. *)
Example cycle_gives_nine_lines :
  option_map (@length Primitive)
    (extraer_primitivas_basicas aci_basic doc_cycle None true 8000 250000
       true true 10) = Some 9%nat.
Proof. vm_compute; reflexivity. Qed.

(** C10.  With [limitar = 0] the pass does what it does with
    [limitar = None], for every document and every other option; on the
    document with one line it returns that line, not an empty list. *)
Theorem C10_limit_zero_is_no_limit :
  (forall aci2rgb doc expand_blocks max_block_repeats max_total_after_blocks
          incluir_texto incluir_hatch fuel,
     extraer_primitivas_basicas aci2rgb doc (Some 0) expand_blocks
       max_block_repeats max_total_after_blocks incluir_texto incluir_hatch
       fuel =
     extraer_primitivas_basicas aci2rgb doc None expand_blocks
       max_block_repeats max_total_after_blocks incluir_texto incluir_hatch
       fuel)
  /\ extraer_primitivas_basicas aci_basic doc_line (Some 0) true 8000 250000
       true true 10 =
     Some [mkPrimitive "LINE" "0" (255, 255, 255)
             (mkData 0 0 "CONTINUOUS" "BYLAYER" (GLine 0 0 10 5))
             false None].
Proof.
  split.
  - intros. unfold extraer_primitivas_basicas.
    rewrite recorrido_limit_0. reflexivity.
  - vm_compute; reflexivity.
Qed.

(** ** Lineweight *)

(** C6 (amended).  The resolver follows the lineweight rule: a sentinel or
    absent raw value gives way to the layer's value, or to 0 when that is a
    sentinel or unset (source LAYER in both cases), and to 0 with source
    DEFAULT only when the layer is missing; any other raw value is kept
    (source ENTITY).  The result is never a sentinel, and it is not
    negative whenever the stored entity and layer values are sentinels or
    widths. *)
Theorem C6_lineweight_resolution (doc : Document) (e : Entity) :
  _effective_lineweight doc e = lineweight_rule doc e
  /\ in_specials (Some (fst (_effective_lineweight doc e))) = false
  /\ (lineweight_valid (dxf_lineweight (dxf e)) ->
      (forall lay, layers doc !! dxf_layer (dxf e) = Some lay ->
                   lineweight_valid (lay_lineweight lay)) ->
      0 <= fst (_effective_lineweight doc e)).
Proof.
  assert (Hrule : _effective_lineweight doc e = lineweight_rule doc e).
  { unfold _effective_lineweight, lineweight_rule, int_or_0.
    destruct (dxf_lineweight (dxf e)) as [v|];
      destruct (layers doc !! dxf_layer (dxf e)) as [lay|];
      try destruct (lay_lineweight lay) as [w|]; simpl;
      repeat case_match; simpl in *; simplify_eq; try reflexivity; try congruence. }
  rewrite Hrule. split; [reflexivity|].
  unfold lineweight_rule, lineweight_valid.
  destruct (dxf_lineweight (dxf e)) as [v|];
    destruct (layers doc !! dxf_layer (dxf e)) as [lay|];
    try destruct (lay_lineweight lay) as [w|] eqn:Hw.
  all: split; [|intros Hv Hlay; try specialize (Hlay _ eq_refl);
                 try rewrite Hw in Hlay].
  all: repeat case_match; simpl in *; simplify_eq;
    try reflexivity; try assumption; try lia.
  all: repeat match goal with H : _ \/ _ |- _ => destruct H end;
    try lia; try congruence.
Qed.

(** An entity of width 25 on layer "0". *)
Lemma C6_witness_width_25 :
  lineweight_valid (Some 25)
  /\ (forall lay, capas !! "0" = Some lay -> lineweight_valid (lay_lineweight lay))
  /\ 0 <= fst (_effective_lineweight doc_line
                 (mkEntity (mkDxf "0" None (Some 25) None false)
                    (LINE (0, 0, 0)%Q (1, 0, 0)%Q))).
Proof.
  assert (Hlay : forall lay, capas !! "0" = Some lay ->
                             lineweight_valid (lay_lineweight lay)).
  { intros lay H. vm_compute in H. injection H as <-. exact I. }
  split; [right; lia|]. split; [exact Hlay|].
  apply (proj2 (proj2 (C6_lineweight_resolution doc_line
           (mkEntity (mkDxf "0" None (Some 25) None false)
              (LINE (0, 0, 0)%Q (1, 0, 0)%Q))))).
  - right; lia.
  - exact Hlay.
Defined.

(** C6, as stated, fails twice: a raw value of -5 is returned as it is,
    below zero; and on layer "THIN", whose own lineweight is the sentinel
    -3, a BYLAYER entity gets 0 with source LAYER, not DEFAULT. *)
Lemma C6_counterexample_negative_value_and_layer_source :
  _effective_lineweight doc_line
    (mkEntity (mkDxf "0" None (Some (-5)) None false)
       (LINE (0, 0, 0)%Q (1, 0, 0)%Q)) = (-5, "ENTITY")
  /\ ~ 0 <= fst (_effective_lineweight doc_line
                   (mkEntity (mkDxf "0" None (Some (-5)) None false)
                      (LINE (0, 0, 0)%Q (1, 0, 0)%Q)))
  /\ _effective_lineweight doc_line
       (mkEntity (mkDxf "THIN" None (Some (-1)) None false)
          (LINE (0, 0, 0)%Q (1, 0, 0)%Q)) = (0, "LAYER").
Proof.
  split; [|split]; vm_compute; try reflexivity. intros H; apply H; reflexivity.
Qed.

(** ** Level of detail *)

(** ** Extents *)

(** C8.  No primitives, no extents; the line from (0, 0) to (10, 5) gives
    (0, 0, 10, 5); a circle and an arc both widen the box by the corners
    [(cx - r, cy - r)] and [(cx + r, cy + r)], the arc whatever its angles:
    the quarter arc of radius 1 about the origin gets (-1, -1, 1, 1). *)
Theorem C8_extents :
  calcular_extents_primitivas [] = None
  /\ (forall layer col lw lwr lt ltr isb bn,
        calcular_extents_primitivas
          [mkPrimitive "LINE" layer col
             (mkData lw lwr lt ltr (GLine 0 0 10 5)) isb bn] =
        Some (Fin 0, Fin 0, Fin 10, Fin 5))
  /\ (forall b layer col lw lwr lt ltr cx cy r isb bn,
        extents_step b
          (mkPrimitive "CIRCLE" layer col
             (mkData lw lwr lt ltr (GCircle cx cy r)) isb bn) =
        upd (upd b (cx - r) (cy - r)) (cx + r) (cy + r))
  /\ (forall b layer col lw lwr lt ltr cx cy r start end_ isb bn,
        extents_step b
          (mkPrimitive "ARC" layer col
             (mkData lw lwr lt ltr (GArc cx cy r start end_)) isb bn) =
        upd (upd b (cx - r) (cy - r)) (cx + r) (cy + r))
  /\ calcular_extents_primitivas [prim_of "ARC" (GArc 0 0 1 0 90)] =
     Some (Fin (-1), Fin (-1), Fin 1, Fin 1).
Proof.
  repeat split; reflexivity.
Qed.

(** ** Arc sampling *)

Section ArcFacts.

Local Open Scope R_scope.

Lemma two_pi_pos : 0 < 2 * PI.
Proof. pose proof PI_RGT_0. lra. Qed.

(** Every real is below some natural number of full turns. *)
Lemma turns_above (x : R) : exists n : nat, x < INR n * (2 * PI).
Proof.
  destruct (archimed (x / (2 * PI))) as [Hup _].
  pose proof two_pi_pos as Hpi.
  exists (Z.to_nat (up (x / (2 * PI)))).
  assert (Hx : x = x / (2 * PI) * (2 * PI)) by (field; lra).
  rewrite Hx at 1. apply Rmult_lt_compat_r; [exact Hpi|].
  rewrite INR_IZR_INZ.
  destruct (Z_le_gt_dec 0 (up (x / (2 * PI)))) as [Hz|Hz].
  - rewrite Z2Nat.id by exact Hz. lra.
  - replace (Z.to_nat (up (x / (2 * PI)))) with 0%nat by lia. simpl.
    apply Rlt_trans with (IZR (up (x / (2 * PI)))); [lra|].
    apply IZR_lt. lia.
Qed.

(** The counter-clockwise loop: with [n] turns enough to pass [a0], the
    loop stops after [k <= n] additions, the first that pass it. *)
Lemma advance_end_turns (n : nat) :
  forall a0 a1,
    a0 - a1 < INR n * (2 * PI) ->
    exists k : nat,
      a0 < a1 + INR k * (2 * PI)
      /\ (k = 0%nat \/ a1 + INR k * (2 * PI) - 2 * PI <= a0)
      /\ forall fuel,
           advance_end (S n + fuel) a0 a1 = Some (a1 + INR k * (2 * PI)).
Proof.
  induction n as [|n IH]; intros a0 a1 Hn.
  - exists 0%nat. simpl in *. repeat split; [lra|auto|].
    intros fuel. destruct (Rle_dec a1 a0); [lra|]. f_equal; lra.
  - destruct (Rle_dec a1 a0) as [Hle|Hgt].
    + destruct (IH a0 (a1 + 2 * PI)) as (k & Hlt & Hmin & Hrun).
      { rewrite S_INR in Hn. lra. }
      exists (S k). rewrite S_INR. repeat split.
      * lra.
      * right. destruct Hmin as [->|Hmin]; simpl in *; lra.
      * intros fuel. change (S (S n) + fuel)%nat with (S (S n + fuel)).
        simpl advance_end at 1.
        destruct (Rle_dec a1 a0); [|contradiction].
        simpl in Hrun. rewrite Hrun. f_equal; lra.
    + exists 0%nat. simpl. repeat split; [lra|auto|].
      intros fuel. destruct (Rle_dec a1 a0); [contradiction|]. f_equal; lra.
Qed.

(** The clockwise loop, on the start angle. *)
Lemma advance_start_turns (n : nat) :
  forall a0 a1,
    a1 - a0 < INR n * (2 * PI) ->
    exists k : nat,
      a1 < a0 + INR k * (2 * PI)
      /\ (k = 0%nat \/ a0 + INR k * (2 * PI) - 2 * PI <= a1)
      /\ forall fuel,
           advance_start (S n + fuel) a0 a1 = Some (a0 + INR k * (2 * PI)).
Proof.
  induction n as [|n IH]; intros a0 a1 Hn.
  - exists 0%nat. simpl in *. repeat split; [lra|auto|].
    intros fuel. destruct (Rle_dec a0 a1); [lra|]. f_equal; lra.
  - destruct (Rle_dec a0 a1) as [Hle|Hgt].
    + destruct (IH (a0 + 2 * PI) a1) as (k & Hlt & Hmin & Hrun).
      { rewrite S_INR in Hn. lra. }
      exists (S k). rewrite S_INR. repeat split.
      * lra.
      * right. destruct Hmin as [->|Hmin]; simpl in *; lra.
      * intros fuel. change (S (S n) + fuel)%nat with (S (S n + fuel)).
        simpl advance_start at 1.
        destruct (Rle_dec a0 a1); [|contradiction].
        simpl in Hrun. rewrite Hrun. f_equal; lra.
    + exists 0%nat. simpl. repeat split; [lra|auto|].
      intros fuel. destruct (Rle_dec a0 a1); [contradiction|]. f_equal; lra.
Qed.

End ArcFacts.

(** The sampler returns one angle more than it has steps. *)
Lemma arc_angles_length (a0 a1 : R) (steps : nat) :
  length (arc_angles a0 a1 steps) = S steps.
Proof.
  unfold arc_angles. rewrite length_map, length_seq. lia.
Qed.

(** ** More on attribute resolution *)

(** An explicit colour index wins over the layer and over the colour
    inherited from an enclosing Insert. *)
Theorem explicit_color_wins (pal : Z -> option RGB) (doc : Document)
    (e : Entity) (byblock_color : option RGB) (c : Z) :
  dxf_color (dxf e) = Some c -> c <> 0 -> c <> 256 ->
  _effective_color pal doc e byblock_color = default (200, 200, 210) (pal c).
Proof.
  intros Hc H0 H256.
  assert (E0 : (c =? 0) = false) by (apply Z.eqb_neq; assumption).
  assert (E256 : (c =? 256) = false) by (apply Z.eqb_neq; assumption).
  unfold _effective_color, aci_in, BYBLOCK, BYLAYER, _aci_to_rgb.
  rewrite Hc, E0. simpl. rewrite E256. reflexivity.
Qed.

Lemma explicit_color_wins_witness :
  dxf_color (attribs "MID" (Some 1)) = Some 1 /\ 1 <> 0 /\ 1 <> 256
  /\ _effective_color aci_basic (doc_byblock 3)
       (mkEntity (attribs "MID" (Some 1)) (LINE (0, 0, 0)%Q (1, 0, 0)%Q))
       (Some (0, 255, 0)) = default (200, 200, 210) (aci_basic 1).
Proof.
  split; [reflexivity|]. split; [lia|]. split; [lia|].
  apply explicit_color_wins; [reflexivity|lia|lia].
Defined.

(** BYLAYER, written as 256 or left out, takes the layer's colour index,
    7 when the layer is missing or has none, whatever colour is inherited;
    an index the palette lacks gives the grey (200, 200, 210). *)
Theorem bylayer_color_from_layer :
  forall (pal : Z -> option RGB) (doc : Document) lname lw lt inv g
         (byblock_color : option RGB),
    _effective_color pal doc (mkEntity (mkDxf lname (Some 256) lw lt inv) g)
      byblock_color = default (200, 200, 210) (pal (layer_aci doc lname))
    /\ _effective_color pal doc (mkEntity (mkDxf lname None lw lt inv) g)
         byblock_color = default (200, 200, 210) (pal (layer_aci doc lname)).
Proof.
  intros. unfold _effective_color, layer_aci, _aci_to_rgb; simpl.
  destruct (layers doc !! lname); split; reflexivity.
Qed.

(** BYBLOCK (0) returns the inherited colour as it is, and without one it
    resolves as BYLAYER does. *)
Theorem byblock_color_inherits_or_falls_to_layer :
  forall (pal : Z -> option RGB) (doc : Document) lname lw lt inv g,
    (forall rgb,
       _effective_color pal doc (mkEntity (mkDxf lname (Some 0) lw lt inv) g)
         (Some rgb) = rgb)
    /\ _effective_color pal doc (mkEntity (mkDxf lname (Some 0) lw lt inv) g)
         None = default (200, 200, 210) (pal (layer_aci doc lname)).
Proof.
  intros. unfold _effective_color, layer_aci, _aci_to_rgb; simpl.
  destruct (layers doc !! lname); split; reflexivity.
Qed.

(** The resolved linetype name is never empty, and the source is ENTITY
    exactly when the entity's own name is kept. *)
Theorem linetype_never_empty (doc : Document) (e : Entity) :
  str_truthy (fst (_effective_linetype doc e)) = true
  /\ (snd (_effective_linetype doc e) = "ENTITY" <->
      lt_unresolved (dxf_linetype (dxf e)) = false)
  /\ (snd (_effective_linetype doc e) = "ENTITY" ->
      dxf_linetype (dxf e) = Some (fst (_effective_linetype doc e))).
Proof.
  unfold _effective_linetype, lt_unresolved.
  destruct (dxf_linetype (dxf e)) as [s|]; simpl.
  - destruct (str_truthy s) eqn:Hs; simpl.
    + destruct ((upper s =? "BYLAYER")%string || (upper s =? "BYBLOCK")%string)%bool;
        simpl.
      * destruct (layers doc !! dxf_layer (dxf e)) as [lay|]; simpl;
          [destruct (str_truthy (default "CONTINUOUS" (lay_linetype lay))) eqn:Hl|];
          simpl; repeat split; auto; try discriminate.
      * repeat split; auto.
    + destruct (layers doc !! dxf_layer (dxf e)) as [lay|]; simpl;
        [destruct (str_truthy (default "CONTINUOUS" (lay_linetype lay))) eqn:Hl|];
        simpl; repeat split; auto; try discriminate.
  - destruct (layers doc !! dxf_layer (dxf e)) as [lay|]; simpl;
      [destruct (str_truthy (default "CONTINUOUS" (lay_linetype lay))) eqn:Hl|];
      simpl; repeat split; auto; try discriminate.
Qed.

Lemma linetype_never_empty_witness :
  snd (_effective_linetype doc_line
         (mkEntity (mkDxf "0" None None (Some "DASHED") false)
            (LINE (0, 0, 0)%Q (1, 0, 0)%Q))) = "ENTITY"
  /\ dxf_linetype (mkDxf "0" None None (Some "DASHED") false) =
     Some (fst (_effective_linetype doc_line
                  (mkEntity (mkDxf "0" None None (Some "DASHED") false)
                     (LINE (0, 0, 0)%Q (1, 0, 0)%Q)))).
Proof.
  split; [reflexivity|].
  apply (proj2 (proj2 (linetype_never_empty doc_line
           (mkEntity (mkDxf "0" None None (Some "DASHED") false)
              (LINE (0, 0, 0)%Q (1, 0, 0)%Q))))).
  reflexivity.
Defined.

(** ** More on the painter *)

Lemma Qgtb_true (a b : Q) : Qgtb a b = true <-> (b < a)%Q.
Proof.
  unfold Qgtb. rewrite negb_true_iff. split; intros H.
  - apply Qnot_le_lt. intros Hle. apply Qle_bool_iff in Hle. congruence.
  - destruct (Qle_bool a b) eqn:E; [|reflexivity].
    apply Qle_bool_iff in E. exfalso. apply (Qlt_not_le _ _ H E).
Qed.

Lemma Qgtb_false (a b : Q) : Qgtb a b = false <-> (a <= b)%Q.
Proof.
  unfold Qgtb. rewrite negb_false_iff. apply Qle_bool_iff.
Qed.

Lemma Qltb_true (a b : Q) : Qltb a b = true <-> (a < b)%Q.
Proof. apply (Qgtb_true b a). Qed.

Lemma Qltb_false (a b : Q) : Qltb a b = false <-> (b <= a)%Q.
Proof. apply (Qgtb_false b a). Qed.

(** The pen is either the hairline 0 or at least 0.4 wide; it is the
    hairline exactly outside the detailed tier or for a lineweight that is
    not positive. *)
Theorem pen_width_hairline_or_visible (view_scale : Q) (lw : Z) :
  (pen_width view_scale lw = 0%Q \/ (0.4 <= pen_width view_scale lw)%Q)
  /\ ((pen_width view_scale lw == 0)%Q <->
      detailed view_scale = false \/ lw <= 0).
Proof.
  unfold pen_width.
  destruct (detailed view_scale); simpl.
  2:{ split; [left; reflexivity|]. split; auto. reflexivity. }
  destruct (Z.leb_spec lw 0) as [Hle|Hgt].
  { split; [left; reflexivity|]. split; auto. reflexivity. }
  set (w := if Qgtb view_scale 0.6 then _ else _).
  destruct (Qltb w 0.4) eqn:Hw.
  - split; [right; apply Qle_refl|]. split.
    + intros H; discriminate H.
    + intros [H|H]; [discriminate|lia].
  - apply Qltb_false in Hw. split; [right; exact Hw|]. split.
    + intros H. rewrite H in Hw. exfalso. revert Hw. apply Qlt_not_le. reflexivity.
    + intros [H|H]; [discriminate|lia].
Qed.

(** A heavier lineweight never gives a thinner pen. *)
Theorem pen_width_monotone (view_scale : Q) (lw1 lw2 : Z) :
  lw1 <= lw2 -> (pen_width view_scale lw1 <= pen_width view_scale lw2)%Q.
Proof.
  intros Hle. unfold pen_width.
  destruct (detailed view_scale); simpl; [|apply Qle_refl].
  remember (if Qgtb view_scale 0.6 then 1.15%Q else 1%Q) as k eqn:Hk.
  assert (Hk0 : (0 <= k)%Q) by (subst k; destruct (Qgtb view_scale 0.6); discriminate).
  assert (Hform : forall lw,
            ((if Qgtb view_scale 0.6
              then inject_Z lw / 100 * LINEWEIGHT_SCALE_BASE * 1.15
              else inject_Z lw / 100 * LINEWEIGHT_SCALE_BASE)
             == inject_Z lw / 100 * LINEWEIGHT_SCALE_BASE * k)%Q).
  { intros lw. subst k. destruct (Qgtb view_scale 0.6); [reflexivity|ring]. }
  assert (Hfloor : forall w : Q, (0 <= (if Qltb w 0.4 then 0.4 else w))%Q).
  { intros w. destruct (Qltb w 0.4) eqn:E; [discriminate|].
    apply Qltb_false in E. eapply Qle_trans; [|exact E]. discriminate. }
  destruct (Z.leb_spec lw1 0) as [H1|H1];
    destruct (Z.leb_spec lw2 0) as [H2|H2]; try lia.
  - apply Qle_refl.
  - apply Hfloor.
  - set (w1 := if Qgtb view_scale 0.6
               then (inject_Z lw1 / 100 * LINEWEIGHT_SCALE_BASE * 1.15)%Q
               else (inject_Z lw1 / 100 * LINEWEIGHT_SCALE_BASE)%Q).
    set (w2 := if Qgtb view_scale 0.6
               then (inject_Z lw2 / 100 * LINEWEIGHT_SCALE_BASE * 1.15)%Q
               else (inject_Z lw2 / 100 * LINEWEIGHT_SCALE_BASE)%Q).
    assert (Hw : (w1 <= w2)%Q).
    { unfold w1, w2. rewrite !Hform.
      apply Qmult_le_compat_r; [|exact Hk0].
      apply Qmult_le_compat_r; [|discriminate].
      apply Qmult_le_compat_r; [|discriminate].
      rewrite <- Zle_Qle. exact Hle. }
    destruct (Qltb w1 0.4) eqn:E1; destruct (Qltb w2 0.4) eqn:E2.
    + apply Qle_refl.
    + apply Qltb_false in E2. exact E2.
    + apply Qltb_false in E1. apply Qltb_true in E2.
      exfalso. apply (Qlt_not_le _ _ E2). eapply Qle_trans; eassumption.
    + exact Hw.
Qed.

Lemma pen_width_monotone_witness :
  13 <= 50 /\ (pen_width 0.7 13 <= pen_width 0.7 50)%Q.
Proof.
  split; [lia|]. apply pen_width_monotone. lia.
Defined.

Lemma pens_of_app (a b : list Cmd) : pens_of (a ++ b) = pens_of a ++ pens_of b.
Proof. unfold pens_of. apply flat_map_app. Qed.

Lemma pens_of_lines {A : Type} (f : A -> Cmd) (l : list A) :
  (forall x, pens_of [f x] = []) -> pens_of (map f l) = [].
Proof.
  intros Hf. induction l as [|x l IH]; [reflexivity|].
  change (map f (x :: l)) with ([f x] ++ map f l).
  rewrite pens_of_app, Hf, IH. reflexivity.
Qed.

(** Drawing a primitive never changes the pen. *)
Lemma draw_prim_keeps_pen view_scale simplify p :
  pens_of (draw_prim view_scale simplify p) = [].
Proof.
  unfold draw_prim.
  repeat case_match; try reflexivity.
  all: rewrite pens_of_app, pens_of_lines by reflexivity; reflexivity.
Qed.

(** Outside the box tier [paint] sets one pen per primitive, in order. *)
Lemma paint_pens view_scale simplify rect primitives :
  box_tier view_scale = false ->
  pens_of (paint view_scale simplify rect primitives) =
  map (fun p =>
         let w := pen_width view_scale (d_lw (data p)) in
         (w, Qeq_bool w 0,
          match dash_of view_scale (upper (d_lt (data p))) with
          | Some (_ :: _) as dash => dash
          | _ => None
          end))
      primitives.
Proof.
  intros Hbox. unfold paint. rewrite Hbox.
  induction primitives as [|p ps IH]; [reflexivity|].
  change (flat_map (paint_prim view_scale simplify) (p :: ps))
    with (paint_prim view_scale simplify p
          ++ flat_map (paint_prim view_scale simplify) ps).
  rewrite pens_of_app, IH. unfold paint_prim.
  match goal with
  | |- pens_of (?c :: ?l) ++ _ = _ => change (c :: l) with ([c] ++ l)
  end.
  rewrite pens_of_app, draw_prim_keeps_pen. simpl.
  f_equal. f_equal.
  destruct (dash_of view_scale (upper (d_lt (data p)))) as [[|z l]|];
    reflexivity.
Qed.

(** In the simple tier, from the box threshold up to the detailed one,
    every pen is the cosmetic hairline without dashes, one per primitive,
    whatever the lineweights and linetypes. *)
Theorem simple_tier_hairline_pens (view_scale : Q) (simplify : bool)
    (rect : Q * Q * Q * Q) (primitives : list Primitive) :
  box_tier view_scale = false -> detailed view_scale = false ->
  pens_of (paint view_scale simplify rect primitives) =
  map (fun _ => (0%Q, true, None)) primitives.
Proof.
  intros Hbox Hdet. rewrite paint_pens by exact Hbox.
  apply map_ext. intros p.
  unfold pen_width, dash_of. rewrite Hdet. reflexivity.
Qed.

Lemma simple_tier_hairline_pens_witness :
  box_tier 0.05 = false /\ detailed 0.05 = false
  /\ pens_of (paint 0.05 true (0, 0, 1, 1)%Q
                [prim_of "LINE" (GLine 0 0 10 5);
                 mkPrimitive "CIRCLE" "0" (255, 0, 0)
                   (mkData 50 50 "DASHED" "DASHED" (GCircle 0 0 1)) false None]) =
     map (fun _ => (0%Q, true, None))
       [prim_of "LINE" (GLine 0 0 10 5);
        mkPrimitive "CIRCLE" "0" (255, 0, 0)
          (mkData 50 50 "DASHED" "DASHED" (GCircle 0 0 1)) false None].
Proof.
  split; [reflexivity|]. split; [reflexivity|].
  apply simple_tier_hairline_pens; reflexivity.
Defined.

(** MTEXT and HATCH primitives are extracted but never drawn: at no scale
    does [paint] issue a drawing call for them. *)
Theorem mtext_and_hatch_never_drawn :
  forall view_scale simplify lname col d isb bn,
    draw_prim view_scale simplify (mkPrimitive "MTEXT" lname col d isb bn) = []
    /\ draw_prim view_scale simplify (mkPrimitive "HATCH" lname col d isb bn) = [].
Proof.
  intros. split; reflexivity.
Qed.

(** A TEXT primitive is drawn exactly when the scale has reached 0.35 and
    its value is not blank; the font size is then [h * scale * 1.4]. *)
Theorem text_drawn_from_threshold :
  forall view_scale simplify lname col lw lwr lt ltr x y h rot value isb bn,
    draw_prim view_scale simplify
      (mkPrimitive "TEXT" lname col
         (mkData lw lwr lt ltr (GText x y h rot value)) isb bn) =
    (if (show_text view_scale && strip_nonempty value)%bool
     then [DrawText x y rot (h * view_scale * 1.4) col value]
     else [])
    /\ (show_text view_scale = true <-> (0.35 <= view_scale)%Q).
Proof.
  intros. split.
  - unfold draw_prim; simpl.
    destruct (show_text view_scale); simpl; [|reflexivity].
    destruct (strip_nonempty value); reflexivity.
  - unfold show_text, Qgeb, LOD_TEXT_THRESHOLD. apply Qle_bool_iff.
Qed.

Lemma range_step_1 (m : nat) : range_step m 1 = seq 0 m.
Proof.
  unfold range_step.
  replace ((m + 1 - 1) / 1)%nat with m by (rewrite Nat.div_1_r; lia).
  rewrite <- (map_id (seq 0 m)) at 2. apply map_ext. intros; lia.
Qed.

Lemma consecutive_by_index (pts : list Pt2) (d : Pt2) :
  map (fun i => (nth i pts d, nth (i + 1) pts d)) (seq 0 (length pts - 1)) =
  consecutive pts.
Proof.
  induction pts as [|a rest IH]; [reflexivity|].
  destruct rest as [|b r]; [reflexivity|].
  change (length (a :: b :: r) - 1)%nat with (S (length r)).
  rewrite <- cons_seq, <- seq_shift, map_cons, map_map.
  change (consecutive (a :: b :: r)) with ((a, b) :: consecutive (b :: r)).
  f_equal. rewrite <- IH.
  replace (length (b :: r) - 1)%nat with (length r) by (simpl; lia).
  apply map_ext. intros i. reflexivity.
Qed.

(** Without decimation (simplification off, at most 400 points, or scale
    0.5 and above) an open polyline is drawn as the segments between its
    neighbouring points, all of them and in order. *)
Theorem polyline_drawn_segment_by_segment :
  forall view_scale simplify lname col lw lwr lt ltr pts isb bn,
    (simplify && (400 <? length pts)%nat && Qltb view_scale 0.5)%bool = false ->
    draw_prim view_scale simplify
      (mkPrimitive "POLYLINE" lname col
         (mkData lw lwr lt ltr (GPolyline pts false)) isb bn) =
    map line_between (consecutive pts).
Proof.
  intros until bn. intros Hstep. unfold draw_prim; simpl.
  destruct pts as [|a rest]; [reflexivity|].
  rewrite Hstep, range_step_1, app_nil_r.
  rewrite <- (consecutive_by_index (a :: rest) (0, 0)%Q), map_map.
  apply map_ext. intros i. reflexivity.
Qed.

Lemma polyline_drawn_segment_by_segment_witness :
  (true && (400 <? length [(0, 0); (1, 0); (1, 1)]%Q)%nat && Qltb 1 0.5)%bool = false
  /\ draw_prim 1 true (prim_of "POLYLINE" (GPolyline [(0, 0); (1, 0); (1, 1)]%Q false)) =
     map line_between (consecutive [(0, 0); (1, 0); (1, 1)]%Q).
Proof.
  split; [reflexivity|].
  apply polyline_drawn_segment_by_segment. reflexivity.
Defined.

(** With decimation (simplification on, more than 400 points, scale under
    0.5) an open polyline of [n] points is drawn with [(n + 1) / 3]
    segments instead of [n - 1]. *)
Theorem polyline_decimated_to_a_third :
  forall view_scale lname col lw lwr lt ltr pts isb bn,
    (400 < length pts)%nat -> (view_scale < 0.5)%Q ->
    length (draw_prim view_scale true
              (mkPrimitive "POLYLINE" lname col
                 (mkData lw lwr lt ltr (GPolyline pts false)) isb bn)) =
    ((length pts + 1) / 3)%nat.
Proof.
  intros until bn. intros Hlen Hscale.
  destruct pts as [|a rest]; [simpl in Hlen; lia|].
  remember (a :: rest) as pts eqn:Hpts.
  assert (Hdraw :
    draw_prim view_scale true
      (mkPrimitive "POLYLINE" lname col
         (mkData lw lwr lt ltr (GPolyline pts false)) isb bn) =
    map (fun i => DrawLine (fst (nth i pts (0, 0)%Q)) (snd (nth i pts (0, 0)%Q))
                   (fst (nth (i + 1) pts (0, 0)%Q))
                   (snd (nth (i + 1) pts (0, 0)%Q)))
        (range_step (length pts - 1) 3)).
  { unfold draw_prim. cbn -[range_step length nth Nat.ltb].
    rewrite Hpts at 1.
    apply Nat.ltb_lt in Hlen. apply Qltb_true in Hscale.
    rewrite Hlen, Hscale. cbn [andb]. rewrite app_nil_r. reflexivity. }
  rewrite Hdraw, length_map. unfold range_step.
  rewrite length_map, length_seq. f_equal. lia.
Qed.

Lemma polyline_decimated_to_a_third_witness :
  (400 < length (repeat (0, 0)%Q 500))%nat /\ (0.2 < 0.5)%Q
  /\ length (draw_prim 0.2 true
               (mkPrimitive "POLYLINE" "0" (255, 255, 255)
                  (mkData 0 0 "CONTINUOUS" "BYLAYER"
                     (GPolyline (repeat (0, 0)%Q 500) false)) false None)) =
     ((length (repeat (0, 0)%Q 500) + 1) / 3)%nat.
Proof.
  split; [rewrite repeat_length; lia|]. split; [reflexivity|].
  apply polyline_decimated_to_a_third; [rewrite repeat_length; lia|reflexivity].
Defined.

(** ** Invariants of the extraction pass *)

Lemma effective_lineweight_not_special (doc : Document) (e : Entity) :
  in_specials (Some (fst (_effective_lineweight doc e))) = false.
Proof.
  unfold _effective_lineweight, int_or_0.
  destruct (dxf_lineweight (dxf e)) as [v|]; simpl.
  - destruct ((v =? -1) || (v =? -2) || (v =? -3))%bool eqn:Hv; simpl;
      [|exact Hv].
    destruct (layers doc !! dxf_layer (dxf e)) as [lay|]; simpl; [|reflexivity].
    destruct (lay_lineweight lay) as [w|]; simpl; [|reflexivity].
    destruct ((w =? -1) || (w =? -2) || (w =? -3))%bool eqn:Hw; simpl;
      [reflexivity|exact Hw].
  - destruct (layers doc !! dxf_layer (dxf e)) as [lay|]; simpl; [|reflexivity].
    destruct (lay_lineweight lay) as [w|]; simpl; [|reflexivity].
    destruct ((w =? -1) || (w =? -2) || (w =? -3))%bool eqn:Hw; simpl;
      [reflexivity|exact Hw].
Qed.

Lemma effective_linetype_truthy (doc : Document) (e : Entity) :
  str_truthy (fst (_effective_linetype doc e)) = true.
Proof.
  unfold _effective_linetype, lt_unresolved.
  destruct (dxf_linetype (dxf e)) as [s|]; simpl.
  - destruct (str_truthy s) eqn:Hs; simpl.
    + destruct ((upper s =? "BYLAYER")%string || (upper s =? "BYBLOCK")%string)%bool;
        simpl; [|exact Hs].
      destruct (layers doc !! dxf_layer (dxf e)) as [lay|]; simpl;
        [destruct (str_truthy (default "CONTINUOUS" (lay_linetype lay))) eqn:Hl|];
        auto.
    + destruct (layers doc !! dxf_layer (dxf e)) as [lay|]; simpl;
        [destruct (str_truthy (default "CONTINUOUS" (lay_linetype lay))) eqn:Hl|];
        auto.
  - destruct (layers doc !! dxf_layer (dxf e)) as [lay|]; simpl;
      [destruct (str_truthy (default "CONTINUOUS" (lay_linetype lay))) eqn:Hl|];
      auto.
Qed.

Lemma entidad_visible_layer (doc : Document) (e : Entity) :
  entidad_visible doc e = true ->
  _layer_is_visible doc (dxf_layer (dxf e)) = true.
Proof.
  unfold entidad_visible. destruct (dxf_invisible (dxf e)); [discriminate|].
  destruct (_layer_is_visible doc (dxf_layer (dxf e))); [reflexivity|discriminate].
Qed.

Section ExtraerInvariants.

Variable aci2rgb : Z -> option RGB.
Variable doc : Document.
Variable limitar : option Z.
Variable expand_blocks : bool.
Variable max_block_repeats : Z.
Variable max_total_after_blocks : Z.
Variable incluir_texto : bool.
Variable incluir_hatch : bool.

Local Abbreviation etp :=
  (entity_to_prims aci2rgb doc limitar expand_blocks max_block_repeats
     max_total_after_blocks incluir_texto incluir_hatch).
Local Abbreviation walk :=
  (recorrido aci2rgb doc limitar expand_blocks max_block_repeats
     max_total_after_blocks incluir_texto incluir_hatch).
Local Abbreviation sound := (emitted_sound doc incluir_texto incluir_hatch).

Lemma entity_to_prims_sound fuel :
  forall e t depth bn bc st st',
    Forall sound (prims st) -> etp fuel e t depth bn bc st = Some st' ->
    Forall sound (prims st').
Proof.
  induction fuel as [|fuel IH]; intros e t depth bn bc st st' Hs; simpl;
    [discriminate|].
  destruct (limit_reached limitar st); [congruence|].
  destruct (total_reached max_total_after_blocks st); [congruence|].
  destruct (entidad_visible doc e) eqn:Hvis; simpl; [|congruence].
  apply entidad_visible_layer in Hvis.
  pose proof (effective_lineweight_not_special doc e) as Hlw.
  pose proof (effective_linetype_truthy doc e) as Hlt.
  destruct (geom e);
    repeat case_match; intros; simplify_eq; try assumption.
  all: try match goal with
       | H : for_each _ _ _ = Some _ |- _ =>
           eapply (for_each_preserves (fun s => Forall sound (prims s))) in H;
           [exact H | intros ? ? ? ? ?; eapply IH; eassumption | exact Hs]
       end.
  all: unfold add_primitive; simpl; apply Forall_app; split; [exact Hs|];
    constructor; [|constructor];
    unfold emitted_sound; simpl;
    repeat split; try assumption; try reflexivity; try discriminate.
  all: try (destruct bn; reflexivity).
  all: try match goal with H : ?x = _ :: _ |- context [?x] => rewrite H end;
    try reflexivity.
Qed.

Lemma recorrido_sound fuel msp :
  forall st st',
    Forall sound (prims st) -> walk fuel msp st = Some st' ->
    Forall sound (prims st').
Proof.
  induction msp as [|ent rest IH]; intros st st' Hs; simpl; [congruence|].
  destruct (etp fuel ent None 0%nat None None st) as [s|] eqn:E; [|discriminate].
  apply entity_to_prims_sound in E; [|exact Hs].
  repeat case_match; intros; simplify_eq; eauto.
Qed.

End ExtraerInvariants.

(** Every pass returns a list whose primitives are all sound. *)
Lemma extraer_sound aci2rgb doc limitar expand mbr mtab it ih fuel :
  exists ps,
    extraer_primitivas_basicas aci2rgb doc limitar expand mbr mtab it ih
      (10 + fuel) = Some ps
    /\ Forall (emitted_sound doc it ih) ps.
Proof.
  unfold extraer_primitivas_basicas.
  destruct (recorrido_returns aci2rgb doc limitar expand mbr mtab it ih
              (10 + fuel) (modelspace doc) estado_inicial) as [st Hst]; [lia|].
  rewrite Hst; simpl. exists (prims st). split; [reflexivity|].
  eapply recorrido_sound; [|exact Hst]. constructor.
Qed.

(** No primitive is emitted on a layer that is off or frozen, at any depth
    of block nesting. *)
Theorem emitted_only_on_visible_layers :
  forall aci2rgb doc limitar expand_blocks max_block_repeats
         max_total_after_blocks incluir_texto incluir_hatch fuel,
  exists ps,
    extraer_primitivas_basicas aci2rgb doc limitar expand_blocks
      max_block_repeats max_total_after_blocks incluir_texto incluir_hatch
      (10 + fuel) = Some ps
    /\ Forall (fun p => _layer_is_visible doc (layer p) = true) ps.
Proof.
  intros.
  destruct (extraer_sound aci2rgb doc limitar expand_blocks max_block_repeats
              max_total_after_blocks incluir_texto incluir_hatch fuel)
    as (ps & Hps & Hs).
  exists ps. split; [exact Hps|].
  eapply Forall_impl; [exact Hs|]. intros p Hp. apply Hp.
Qed.

(** Every emitted primitive carries the geometry keys of its kind, and a
    geometry that is not empty: the extents and the painter never meet a
    missing key, an empty polyline, a blank text or a hatch without loops
    in the output of the extractor. *)
Theorem emitted_payload_fits_kind :
  forall aci2rgb doc limitar expand_blocks max_block_repeats
         max_total_after_blocks incluir_texto incluir_hatch fuel,
  exists ps,
    extraer_primitivas_basicas aci2rgb doc limitar expand_blocks
      max_block_repeats max_total_after_blocks incluir_texto incluir_hatch
      (10 + fuel) = Some ps
    /\ Forall (fun p => payload_matches (tipo p) (payload (data p)) = true
                        /\ payload_populated (payload (data p)) = true) ps.
Proof.
  intros.
  destruct (extraer_sound aci2rgb doc limitar expand_blocks max_block_repeats
              max_total_after_blocks incluir_texto incluir_hatch fuel)
    as (ps & Hps & Hs).
  exists ps. split; [exact Hps|].
  eapply Forall_impl; [exact Hs|]. intros p Hp. split; apply Hp.
Qed.

(** Every emitted primitive has a lineweight that is no sentinel and a
    linetype name that is not empty, and is flagged as coming from a block
    exactly when it names one. *)
Theorem emitted_attributes_resolved :
  forall aci2rgb doc limitar expand_blocks max_block_repeats
         max_total_after_blocks incluir_texto incluir_hatch fuel,
  exists ps,
    extraer_primitivas_basicas aci2rgb doc limitar expand_blocks
      max_block_repeats max_total_after_blocks incluir_texto incluir_hatch
      (10 + fuel) = Some ps
    /\ Forall (fun p => in_specials (Some (d_lw (data p))) = false
                        /\ str_truthy (d_lt (data p)) = true
                        /\ is_block p = negb (is_none (block_name p))) ps.
Proof.
  intros.
  destruct (extraer_sound aci2rgb doc limitar expand_blocks max_block_repeats
              max_total_after_blocks incluir_texto incluir_hatch fuel)
    as (ps & Hps & Hs).
  exists ps. split; [exact Hps|].
  eapply Forall_impl; [exact Hs|]. intros p Hp. repeat split; apply Hp.
Qed.

(** With [incluir_texto] off no TEXT or MTEXT is emitted, and with
    [incluir_hatch] off no HATCH, also from inside blocks. *)
Theorem text_and_hatch_switches :
  forall aci2rgb doc limitar expand_blocks max_block_repeats
         max_total_after_blocks fuel,
    (forall incluir_hatch, exists ps,
       extraer_primitivas_basicas aci2rgb doc limitar expand_blocks
         max_block_repeats max_total_after_blocks false incluir_hatch
         (10 + fuel) = Some ps
       /\ Forall (fun p => tipo p <> "TEXT" /\ tipo p <> "MTEXT") ps)
    /\ (forall incluir_texto, exists ps,
          extraer_primitivas_basicas aci2rgb doc limitar expand_blocks
            max_block_repeats max_total_after_blocks incluir_texto false
            (10 + fuel) = Some ps
          /\ Forall (fun p => tipo p <> "HATCH") ps).
Proof.
  intros. split; intros flag.
  - destruct (extraer_sound aci2rgb doc limitar expand_blocks max_block_repeats
                max_total_after_blocks false flag fuel) as (ps & Hps & Hs).
    exists ps. split; [exact Hps|].
    eapply Forall_impl; [exact Hs|].
    intros p (_ & _ & _ & _ & _ & _ & Htxt & _).
    split; intros Ht; rewrite Ht in Htxt; specialize (Htxt eq_refl);
      discriminate.
  - destruct (extraer_sound aci2rgb doc limitar expand_blocks max_block_repeats
                max_total_after_blocks flag false fuel) as (ps & Hps & Hs).
    exists ps. split; [exact Hps|].
    eapply Forall_impl; [exact Hs|].
    intros p (_ & _ & _ & _ & _ & _ & _ & Hh).
    intros Ht; rewrite Ht in Hh; specialize (Hh eq_refl); discriminate.
Qed.

(** ** Limits, switches and order of the extraction pass *)

Section ExtraerLimits.

Variable aci2rgb : Z -> option RGB.
Variable doc : Document.
Variable limitar : option Z.
Variable expand_blocks : bool.
Variable max_block_repeats : Z.
Variable max_total_after_blocks : Z.
Variable incluir_texto : bool.
Variable incluir_hatch : bool.

Local Abbreviation etp :=
  (entity_to_prims aci2rgb doc limitar expand_blocks max_block_repeats
     max_total_after_blocks incluir_texto incluir_hatch).
Local Abbreviation walk :=
  (recorrido aci2rgb doc limitar expand_blocks max_block_repeats
     max_total_after_blocks incluir_texto incluir_hatch).

(** A call only appends to the list, and counts what it appends. *)
Lemma entity_to_prims_appends fuel :
  forall e t depth bn bc st st',
    etp fuel e t depth bn bc st = Some st' ->
    exists added,
      prims st' = prims st ++ added
      /\ cuenta st' = cuenta st + Z.of_nat (length added).
Proof.
  induction fuel as [|fuel IH]; intros e t depth bn bc st st'; simpl;
    [discriminate|].
  assert (Hsame : forall s : State,
            exists added, prims s = prims s ++ added
                          /\ cuenta s = cuenta s + Z.of_nat (length added)).
  { intros s. exists []. rewrite app_nil_r. simpl. split; [reflexivity|lia]. }
  destruct (limit_reached limitar st); [intros; simplify_eq; apply Hsame|].
  destruct (total_reached max_total_after_blocks st);
    [intros; simplify_eq; apply Hsame|].
  destruct (negb (entidad_visible doc e)); [intros; simplify_eq; apply Hsame|].
  destruct (geom e);
    repeat case_match; intros; simplify_eq; try apply Hsame;
    try (eexists [_]; split; [reflexivity|simpl; lia]).
  all: try (exists []; simpl; rewrite app_nil_r; split; [reflexivity|lia]).
  all: match goal with
       | H : for_each _ _ ?s0 = Some _ |- _ =>
           eapply (for_each_preserves
                     (fun s => exists added,
                          prims s = prims st ++ added
                          /\ cuenta s = cuenta st + Z.of_nat (length added)))
             in H; [exact H| |exists []; simpl; rewrite app_nil_r;
                              split; [reflexivity|lia]]
       end.
  all: intros be s s' (added & Hp & Hc) Hbe;
    apply IH in Hbe; destruct Hbe as (more & Hp' & Hc');
    exists (added ++ more); rewrite Hp', Hp, Hc', Hc, length_app, app_assoc;
    split; [reflexivity|lia].
Qed.

Lemma recorrido_appends fuel msp :
  forall st st',
    walk fuel msp st = Some st' -> exists added, prims st' = prims st ++ added.
Proof.
  induction msp as [|ent rest IH]; intros st st'; simpl.
  - intros; simplify_eq. exists []. rewrite app_nil_r. reflexivity.
  - destruct (etp fuel ent None 0%nat None None st) as [s|] eqn:E; [|discriminate].
    apply entity_to_prims_appends in E. destruct E as (added & Hp & _).
    repeat case_match; intros; simplify_eq; eauto.
    match goal with H : walk _ _ _ = Some _ |- _ =>
      apply IH in H; destruct H as (more & Hm) end.
    exists (added ++ more). rewrite Hm, Hp, app_assoc. reflexivity.
Qed.

(** Once a cap is reached the rest of model space changes nothing. *)
Lemma recorrido_at_cap fuel msp st :
  (limit_reached limitar st || total_reached max_total_after_blocks st)%bool = true ->
  walk (S fuel) msp st = Some st.
Proof.
  intros Hcap. destruct msp as [|ent rest]; [reflexivity|].
  simpl.
  destruct (limit_reached limitar st) eqn:Hl; [rewrite Hl; reflexivity|].
  simpl in Hcap. rewrite Hcap, Hl, Hcap. reflexivity.
Qed.

Lemma recorrido_app fuel a b :
  forall st,
    walk (S fuel) (a ++ b) st =
    match walk (S fuel) a st with
    | Some s => walk (S fuel) b s
    | None => None
    end.
Proof.
  induction a as [|ent rest IH]; intros st; [reflexivity|].
  change ((ent :: rest) ++ b) with (ent :: (rest ++ b)).
  cbn [recorrido].
  destruct (etp (S fuel) ent None 0%nat None None st) as [s|]; [|reflexivity].
  destruct (limit_reached limitar s) eqn:Hl.
  - symmetry. apply recorrido_at_cap. rewrite Hl. reflexivity.
  - destruct (total_reached max_total_after_blocks s) eqn:Ht.
    + symmetry. apply recorrido_at_cap. rewrite Hl, Ht. reflexivity.
    + apply IH.
Qed.

End ExtraerLimits.

(** A call reads the layer and block tables of the document, not its
    model space. *)
Lemma entity_to_prims_tables aci2rgb d1 d2 limitar expand mbr mtab it ih fuel :
  layers d1 = layers d2 -> blocks d1 = blocks d2 ->
  forall e t depth bn bc st,
    entity_to_prims aci2rgb d1 limitar expand mbr mtab it ih fuel e t depth
      bn bc st =
    entity_to_prims aci2rgb d2 limitar expand mbr mtab it ih fuel e t depth
      bn bc st.
Proof.
  intros Hl Hb.
  induction fuel as [|fuel IH]; intros e t depth bn bc st; [reflexivity|].
  simpl.
  unfold entidad_visible, _layer_is_visible, _effective_color,
    _effective_lineweight, _effective_linetype.
  rewrite Hl, Hb.
  repeat case_match; try reflexivity; try congruence.
  all: apply for_each_ext; intros; apply IH.
Qed.

Lemma recorrido_tables aci2rgb d1 d2 limitar expand mbr mtab it ih fuel msp :
  layers d1 = layers d2 -> blocks d1 = blocks d2 ->
  forall st,
    recorrido aci2rgb d1 limitar expand mbr mtab it ih fuel msp st =
    recorrido aci2rgb d2 limitar expand mbr mtab it ih fuel msp st.
Proof.
  intros Hl Hb. induction msp as [|ent rest IH]; intros st; [reflexivity|].
  simpl. rewrite (entity_to_prims_tables aci2rgb d1 d2) by assumption.
  repeat case_match; try reflexivity; apply IH.
Qed.

(** Entities added at the end of model space only add primitives at the
    end of the result: what the pass returned before is kept as a prefix,
    in the same order. *)
Theorem extending_model_space_appends :
  forall aci2rgb lay blk (msp more : list Entity) limitar expand_blocks
         max_block_repeats max_total_after_blocks incluir_texto incluir_hatch
         fuel,
  exists ps added,
    extraer_primitivas_basicas aci2rgb (mkDocument lay blk msp) limitar
      expand_blocks max_block_repeats max_total_after_blocks incluir_texto
      incluir_hatch (10 + fuel) = Some ps
    /\ extraer_primitivas_basicas aci2rgb (mkDocument lay blk (msp ++ more))
         limitar expand_blocks max_block_repeats max_total_after_blocks
         incluir_texto incluir_hatch (10 + fuel) = Some (ps ++ added).
Proof.
  intros. unfold extraer_primitivas_basicas. simpl modelspace.
  rewrite (recorrido_tables aci2rgb (mkDocument lay blk (msp ++ more))
             (mkDocument lay blk msp)) by reflexivity.
  change (10 + fuel)%nat with (S (9 + fuel)).
  rewrite recorrido_app.
  destruct (recorrido_returns aci2rgb (mkDocument lay blk msp) limitar
              expand_blocks max_block_repeats max_total_after_blocks
              incluir_texto incluir_hatch (S (9 + fuel)) msp estado_inicial)
    as [s Hs]; [lia|].
  rewrite Hs.
  destruct (recorrido_returns aci2rgb (mkDocument lay blk msp) limitar
              expand_blocks max_block_repeats max_total_after_blocks
              incluir_texto incluir_hatch (S (9 + fuel)) more s)
    as [s' Hs']; [lia|].
  rewrite Hs'. destruct (recorrido_appends _ _ _ _ _ _ _ _ _ _ _ _ Hs')
    as (added & Hadd).
  exists (prims s), added. simpl. rewrite Hadd. split; reflexivity.
Qed.

Section ExtraerLimitar.

Variable aci2rgb : Z -> option RGB.
Variable doc : Document.
Variable limit : Z.
Variable expand_blocks : bool.
Variable max_block_repeats : Z.
Variable max_total_after_blocks : Z.
Variable incluir_texto : bool.
Variable incluir_hatch : bool.
Hypothesis limit_positive : 0 < limit.

Local Abbreviation etp :=
  (entity_to_prims aci2rgb doc (Some limit) expand_blocks max_block_repeats
     max_total_after_blocks incluir_texto incluir_hatch).
Local Abbreviation walk :=
  (recorrido aci2rgb doc (Some limit) expand_blocks max_block_repeats
     max_total_after_blocks incluir_texto incluir_hatch).
Local Abbreviation under_limit := (counted limit).

Lemma entity_to_prims_under_limit fuel :
  forall e t depth bn bc st st',
    under_limit st -> etp fuel e t depth bn bc st = Some st' -> under_limit st'.
Proof.
  induction fuel as [|fuel IH]; intros e t depth bn bc st st' Hc; simpl;
    [discriminate|].
  destruct (negb (limit =? 0) && (limit <=? cuenta st))%bool eqn:Hl;
    [congruence|].
  assert (Hlt : cuenta st < limit).
  { apply andb_false_iff in Hl as [Hl|Hl].
    - apply negb_false_iff, Z.eqb_eq in Hl. lia.
    - apply Z.leb_gt in Hl. exact Hl. }
  destruct (total_reached max_total_after_blocks st); [congruence|].
  destruct (negb (entidad_visible doc e)); [congruence|].
  destruct (geom e);
    repeat case_match; intros; simplify_eq; try assumption.
  all: try match goal with
       | H : for_each _ _ _ = Some _ |- _ =>
           eapply (for_each_preserves under_limit) in H;
           [exact H | intros ? ? ? ? ?; eapply IH; eassumption | exact Hc]
       end.
  all: destruct Hc as [Hlen Hcap]; unfold counted, add_primitive; simpl;
    rewrite length_app; simpl; lia.
Qed.

Lemma recorrido_under_limit fuel msp :
  forall st st', under_limit st -> walk fuel msp st = Some st' -> under_limit st'.
Proof.
  induction msp as [|ent rest IH]; intros st st' Hc; simpl; [congruence|].
  destruct (etp fuel ent None 0%nat None None st) as [s|] eqn:E; [|discriminate].
  apply entity_to_prims_under_limit in E; [|exact Hc].
  repeat case_match; intros; simplify_eq; eauto.
Qed.

End ExtraerLimitar.

(** A positive [limitar] caps the whole result, primitives from expanded
    blocks included, and not only what is read from model space. *)
Theorem positive_limit_caps_result
    (aci2rgb : Z -> option RGB) (doc : Document) (limit : Z)
    (expand_blocks : bool) (max_block_repeats max_total_after_blocks : Z)
    (incluir_texto incluir_hatch : bool) (fuel : nat) :
  0 < limit ->
  exists ps,
    extraer_primitivas_basicas aci2rgb doc (Some limit) expand_blocks
      max_block_repeats max_total_after_blocks incluir_texto incluir_hatch
      (10 + fuel) = Some ps
    /\ Z.of_nat (length ps) <= limit.
Proof.
  intros Hpos. unfold extraer_primitivas_basicas.
  destruct (recorrido_returns aci2rgb doc (Some limit) expand_blocks
              max_block_repeats max_total_after_blocks incluir_texto
              incluir_hatch (10 + fuel) (modelspace doc) estado_inicial)
    as [st Hst]; [lia|].
  rewrite Hst; simpl. exists (prims st). split; [reflexivity|].
  apply recorrido_under_limit in Hst; [|exact Hpos|split; simpl; lia].
  destruct Hst as [Hlen Hle]. lia.
Qed.

Lemma positive_limit_caps_result_witness :
  0 < 3
  /\ exists ps,
       extraer_primitivas_basicas aci_basic doc_cycle (Some 3) true 8000
         250000 true true (10 + 0) = Some ps
       /\ Z.of_nat (length ps) <= 3.
Proof.
  split; [lia|]. apply positive_limit_caps_result. lia.
Defined.

(** An entity flagged invisible, or on a layer that is off or frozen,
    leaves the pass as it found it; for an INSERT that hides the whole
    block and does not count as a repeat.  A layer missing from the table
    hides nothing. *)
Theorem hidden_entity_is_skipped
    (aci2rgb : Z -> option RGB) (doc : Document) (limitar : option Z)
    (expand_blocks : bool) (max_block_repeats max_total_after_blocks : Z)
    (incluir_texto incluir_hatch : bool) (fuel : nat) (e : Entity)
    (t : option Matrix44) (depth : nat) (bn : option string)
    (bc : option RGB) (st : State) :
  (dxf_invisible (dxf e) = true
   \/ exists lay, layers doc !! dxf_layer (dxf e) = Some lay
                  /\ (is_off lay = true \/ is_frozen lay = true)) ->
  entity_to_prims aci2rgb doc limitar expand_blocks max_block_repeats
    max_total_after_blocks incluir_texto incluir_hatch (S fuel) e t depth bn
    bc st = Some st.
Proof.
  intros Hhid.
  assert (Hvis : entidad_visible doc e = false).
  { unfold entidad_visible, _layer_is_visible.
    destruct Hhid as [->|(lay & -> & [->| ->])]; [reflexivity| |].
    - destruct (dxf_invisible (dxf e)); reflexivity.
    - destruct (dxf_invisible (dxf e)); [reflexivity|].
      destruct (is_off lay); reflexivity. }
  simpl. rewrite Hvis. simpl. repeat case_match; reflexivity.
Qed.

Lemma hidden_entity_is_skipped_witness :
  (dxf_invisible (mkDxf "0" None None None true) = true
   \/ exists lay, capas !! "0" = Some lay
                  /\ (is_off lay = true \/ is_frozen lay = true))
  /\ entity_to_prims aci_basic doc_cycle None true 8000 250000 true true 1
       (mkEntity (mkDxf "0" None None None true) (INSERT "A" None)) None 0
       None None estado_inicial = Some estado_inicial.
Proof.
  split; [left; reflexivity|].
  apply (hidden_entity_is_skipped aci_basic doc_cycle None true 8000 250000
           true true 0).
  left; reflexivity.
Defined.

Section SinBloques.

Variable aci2rgb : Z -> option RGB.
Variable doc : Document.
Variable limitar : option Z.
Variable max_block_repeats : Z.
Variable max_total_after_blocks : Z.
Variable incluir_texto : bool.
Variable incluir_hatch : bool.

Local Abbreviation etp :=
  (entity_to_prims aci2rgb doc limitar false max_block_repeats
     max_total_after_blocks incluir_texto incluir_hatch).
Local Abbreviation walk :=
  (recorrido aci2rgb doc limitar false max_block_repeats
     max_total_after_blocks incluir_texto incluir_hatch).

(** Without block expansion a call adds at most one primitive, with the
    block name it was given. *)
Lemma entity_to_prims_flat fuel e t depth bn bc st st' :
  etp fuel e t depth bn bc st = Some st' ->
  prims st' = prims st
  \/ exists p, prims st' = prims st ++ [p] /\ block_name p = bn.
Proof.
  destruct fuel as [|fuel]; simpl; [discriminate|].
  repeat case_match; intros; simplify_eq; auto;
    right; eexists; split; reflexivity.
Qed.

Lemma recorrido_flat fuel msp :
  forall st st',
    walk fuel msp st = Some st' ->
    exists added,
      prims st' = prims st ++ added
      /\ (length added <= length msp)%nat
      /\ Forall (fun p => block_name p = None) added.
Proof.
  induction msp as [|ent rest IH]; intros st st'; simpl.
  - intros; simplify_eq. exists []. rewrite app_nil_r. auto.
  - destruct (etp fuel ent None 0%nat None None st) as [s|] eqn:E; [|discriminate].
    apply entity_to_prims_flat in E.
    assert (Hone : exists one, prims s = prims st ++ one
                               /\ (length one <= 1)%nat
                               /\ Forall (fun p => block_name p = None) one).
    { destruct E as [E|(p & E & Hp)].
      - exists []. rewrite app_nil_r. simpl. auto.
      - exists [p]. simpl. auto. }
    destruct Hone as (one & Hp & Hlen & Hall).
    repeat case_match; intros; simplify_eq.
    1,2: exists one; repeat split; [exact Hp|simpl; lia|exact Hall].
    match goal with H : walk _ _ _ = Some _ |- _ =>
      apply IH in H; destruct H as (more & Hm & Hlm & Hallm) end.
    exists (one ++ more). rewrite Hm, Hp, app_assoc, length_app.
    repeat split; [simpl; lia|]. apply Forall_app; auto.
Qed.

End SinBloques.

(** With [expand_blocks] off the pass emits at most one primitive per
    model-space entity and none of them is attributed to a block. *)
Theorem without_expansion_one_per_entity :
  forall aci2rgb doc limitar max_block_repeats max_total_after_blocks
         incluir_texto incluir_hatch fuel,
  exists ps,
    extraer_primitivas_basicas aci2rgb doc limitar false max_block_repeats
      max_total_after_blocks incluir_texto incluir_hatch (10 + fuel) = Some ps
    /\ (length ps <= length (modelspace doc))%nat
    /\ Forall (fun p => block_name p = None /\ is_block p = false) ps.
Proof.
  intros.
  destruct (extraer_sound aci2rgb doc limitar false max_block_repeats
              max_total_after_blocks incluir_texto incluir_hatch fuel)
    as (ps & Hps & Hs).
  exists ps. split; [exact Hps|].
  unfold extraer_primitivas_basicas in Hps.
  destruct (recorrido aci2rgb doc limitar false max_block_repeats
              max_total_after_blocks incluir_texto incluir_hatch (10 + fuel)
              (modelspace doc) estado_inicial) as [st|] eqn:Hst;
    [|discriminate].
  apply recorrido_flat in Hst. destruct Hst as (added & Hp & Hlen & Hall).
  simpl in Hps, Hp. injection Hps as <-. rewrite Hp in *.
  split; [exact Hlen|].
  apply Forall_forall. intros p Hin.
  pose proof (proj1 (Forall_forall _ _) Hall p Hin) as Hbn.
  pose proof (proj1 (Forall_forall _ _) Hs p Hin) as (_ & Hib & _).
  split; [exact Hbn|]. rewrite Hib, Hbn. reflexivity.
Qed.

(** ** Hatch loops *)

Lemma edge_step_started (ls : LoopState) (edge : Edge) :
  loop_started ls -> loop_started (edge_step ls edge).
Proof.
  destruct ls as [[current first_set] first_pt].
  intros [(-> & -> & ->)|(f & rest & -> & -> & ->)];
    destruct edge as [p1 p2|pts|pts|]; simpl;
    try destruct pts as [|p0 more]; simpl; eauto 8.
  all: right; eauto 8.
Qed.

Lemma path_started (bpath : list Edge) :
  forall ls, loop_started ls -> loop_started (fold_left edge_step bpath ls).
Proof.
  induction bpath as [|edge rest IH]; intros ls Hs; [exact Hs|].
  simpl. apply IH, edge_step_started, Hs.
Qed.

Lemma near_refl (a : Pt2) : near a a.
Proof.
  unfold near. split.
  - setoid_replace (fst a - fst a)%Q with 0%Q using relation Qeq by ring. discriminate.
  - setoid_replace (snd a - snd a)%Q with 0%Q using relation Qeq by ring. discriminate.
Qed.

Lemma close_loop_closed (f : Pt2) (rest : list Pt2) :
  loop_closed (close_loop (f :: rest) (Some f)).
Proof.
  unfold close_loop.
  destruct (last (f :: rest)) as [l|] eqn:El.
  2:{ exfalso. destruct (last_is_Some (f :: rest)) as [_ H].
      destruct H as [x Hx]; [discriminate|congruence]. }
  destruct (Qgtb (Qabs (fst l - fst f)) (1 # 1000000)) eqn:Hx; cbn [orb].
  - cbv [loop_closed]. cbn [app].
      change (f :: rest ++ [f]) with ((f :: rest) ++ [f]).
      rewrite last_snoc. apply near_refl.
  - destruct (Qgtb (Qabs (snd l - snd f)) (1 # 1000000)) eqn:Hy; cbn [orb].
    + cbv [loop_closed]. cbn [app].
      change (f :: rest ++ [f]) with ((f :: rest) ++ [f]).
      rewrite last_snoc. apply near_refl.
    + cbv [loop_closed]. rewrite El.
      apply Qgtb_false in Hx, Hy. split; assumption.
Qed.

Lemma hatch_step_closed (loops : list (list Pt2)) (bpath : list Edge) :
  Forall loop_closed loops ->
  Forall loop_closed (hatch_step loops bpath)
  /\ (length (hatch_step loops bpath) <= S (length loops))%nat.
Proof.
  intros Hl. unfold hatch_step.
  assert (Hs : loop_started (fold_left edge_step bpath ([], false, None))).
  { apply path_started. left. auto. }
  destruct (fold_left edge_step bpath ([], false, None))
    as [[current first_set] first_pt].
  destruct Hs as [(-> & _ & _)|(f & more & -> & _ & ->)].
  - split; [exact Hl|lia].
  - split.
    + apply Forall_app. split; [exact Hl|].
      constructor; [apply close_loop_closed|constructor].
    + rewrite length_app. simpl. lia.
Qed.

Lemma hatch_loops_fold (paths : list (list Edge)) :
  forall loops,
    Forall loop_closed loops ->
    Forall loop_closed (fold_left hatch_step paths loops)
    /\ (length (fold_left hatch_step paths loops)
        <= length loops + length paths)%nat.
Proof.
  induction paths as [|bpath rest IH]; intros loops Hl; simpl.
  - split; [exact Hl|lia].
  - destruct (hatch_step_closed loops bpath Hl) as [Hc Hn].
    destruct (IH _ Hc) as [H1 H2]. split; [exact H1|lia].
Qed.

(** Every loop [hatch_loops] returns has points and is closed: its last
    point lies within [1e-6] of its first on both axes.  No path gives
    more than one loop. *)
Theorem hatch_loops_are_closed (paths : list (list Edge)) :
  Forall loop_closed (hatch_loops paths)
  /\ (length (hatch_loops paths) <= length paths)%nat.
Proof.
  change (hatch_loops paths) with (fold_left hatch_step paths []).
  destruct (hatch_loops_fold paths [] (List.Forall_nil _)) as [H1 H2].
  split; [exact H1|exact H2].
Qed.

Lemma line_edges_fold (segs : list (Pt2 * Pt2)) :
  forall current f,
    fold_left edge_step (map (fun s => LineEdge (fst s) (snd s)) segs)
      (current, true, Some f) =
    (current ++ map snd segs, true, Some f).
Proof.
  induction segs as [|s rest IH]; intros current f; simpl.
  - rewrite app_nil_r. reflexivity.
  - rewrite IH, <- app_assoc. reflexivity.
Qed.

(** A path of line edges gives the start of its first edge followed by
    the end of every edge; the starts of the later edges are not read, so
    a path whose edges do not chain is joined up without notice. *)
Theorem line_path_takes_first_start_and_all_ends :
  forall (a b : Pt2) (segs : list (Pt2 * Pt2)),
    hatch_loops
      [LineEdge a b :: map (fun s => LineEdge (fst s) (snd s)) segs] =
    [close_loop (a :: b :: map snd segs) (Some a)].
Proof.
  intros. unfold hatch_loops. simpl.
  rewrite line_edges_fold. reflexivity.
Qed.

(** ** More on arc sampling *)

Section ArcShape.

Local Open Scope R_scope.

Lemma point_at_on_circle cx cy r ang : on_circle cx cy r (point_at cx cy r ang).
Proof.
  unfold on_circle, point_at; simpl.
  replace ((cx + cos ang * r - cx) * (cx + cos ang * r - cx)
           + (cy + sin ang * r - cy) * (cy + sin ang * r - cy))
    with (r * r * ((sin ang)² + (cos ang)²)) by (unfold Rsqr; ring).
  rewrite sin2_cos2. ring.
Qed.

Lemma point_at_turns cx cy r ang (k : nat) :
  point_at cx cy r (ang + INR k * (2 * PI)) = point_at cx cy r ang.
Proof.
  unfold point_at.
  replace (ang + INR k * (2 * PI)) with (ang + 2 * INR k * PI) by ring.
  rewrite cos_period, sin_period. reflexivity.
Qed.

Lemma arc_angles_head a0 a1 steps : head (arc_angles a0 a1 steps) = Some a0.
Proof.
  unfold arc_angles. rewrite Nat.add_1_r. simpl.
  f_equal. unfold Rdiv. ring.
Qed.

Lemma arc_angles_last a0 a1 steps :
  (0 < steps)%nat -> last (arc_angles a0 a1 steps) = Some a1.
Proof.
  intros Hpos. unfold arc_angles.
  rewrite Nat.add_1_r, seq_S, map_app.
  change (map ?f [?x]) with [f x]. rewrite last_snoc. simpl.
  f_equal. field. apply not_0_INR. lia.
Qed.

Lemma last_of_map {A B : Type} (f : A -> B) (l : list A) :
  last (map f l) = option_map f (last l).
Proof.
  induction l as [|a l IH]; [reflexivity|].
  destruct l as [|b l]; [reflexivity|]. exact IH.
Qed.

Lemma sampled_shape cx cy r a0 a1 (seg : nat) :
  let pts := map (point_at cx cy r) (arc_angles a0 a1 (Nat.max 4 seg)) in
  length pts = S (Nat.max 4 seg)
  /\ Forall (on_circle cx cy r) pts
  /\ head pts = Some (point_at cx cy r a0)
  /\ last pts = Some (point_at cx cy r a1).
Proof.
  simpl. repeat split.
  - rewrite length_map. apply arc_angles_length.
  - apply Forall_forall. intros p Hin.
    apply list_elem_of_In, in_map_iff in Hin. destruct Hin as (ang & <- & _).
    apply point_at_on_circle.
  - pose proof (arc_angles_head a0 a1 (Nat.max 4 seg)) as Hh.
    destruct (arc_angles a0 a1 (Nat.max 4 seg)); simpl in *; congruence.
  - pose proof (arc_angles_last a0 a1 (Nat.max 4 seg)) as Hl.
    rewrite last_of_map, Hl by lia. reflexivity.
Qed.

End ArcShape.

(** ** More on extents *)

Lemma min_bound_below_new a x : bound_below (min_bound a x) x.
Proof.
  destruct a as [|q|]; simpl; auto; [|apply Qle_refl].
  destruct (Qgtb q x) eqn:E; simpl; [apply Qle_refl|].
  apply Qgtb_false in E. exact E.
Qed.

Lemma min_bound_below_old a x y : bound_below a y -> bound_below (min_bound a x) y.
Proof.
  destruct a as [|q|]; simpl; auto; [|contradiction].
  intros Hq. destruct (Qgtb q x) eqn:E; simpl; [|exact Hq].
  apply Qgtb_true in E. apply Qlt_le_weak. eapply Qlt_le_trans; eassumption.
Qed.

Lemma max_bound_above_new a x : bound_above (max_bound a x) x.
Proof.
  destruct a as [|q|]; simpl; auto; [apply Qle_refl|].
  destruct (Qgtb x q) eqn:E; simpl; [apply Qle_refl|].
  apply Qgtb_false in E. exact E.
Qed.

Lemma max_bound_above_old a x y : bound_above a y -> bound_above (max_bound a x) y.
Proof.
  destruct a as [|q|]; simpl; auto; [contradiction|].
  intros Hq. destruct (Qgtb x q) eqn:E; simpl; [|exact Hq].
  apply Qgtb_true in E. apply Qlt_le_weak. eapply Qle_lt_trans; eassumption.
Qed.

Lemma upd_point_contains_new b pt : box_contains (upd_point b pt) pt.
Proof.
  destruct b as [[[xmin ymin] xmax] ymax]. unfold upd_point, upd, box_contains.
  auto using min_bound_below_new, max_bound_above_new.
Qed.

Lemma upd_point_contains_old b pt q :
  box_contains b q -> box_contains (upd_point b pt) q.
Proof.
  destruct b as [[[xmin ymin] xmax] ymax]. unfold upd_point, upd, box_contains.
  intros (H1 & H2 & H3 & H4).
  auto using min_bound_below_old, max_bound_above_old.
Qed.

Lemma fold_upd_contains (pts : list Pt2) :
  forall b q, box_contains b q \/ In q pts ->
              box_contains (fold_left upd_point pts b) q.
Proof.
  induction pts as [|pt rest IH]; intros b q; simpl.
  - intros [H|[]]. exact H.
  - intros [H|[->|H]]; apply IH; auto using upd_point_contains_new,
      upd_point_contains_old.
Qed.

Lemma fold_left_concat {A B : Type} (f : B -> A -> B) (ls : list (list A)) :
  forall b, fold_left (fun b l => fold_left f l b) ls b = fold_left f (concat ls) b.
Proof.
  induction ls as [|l rest IH]; intros b; simpl; [reflexivity|].
  rewrite fold_left_app. apply IH.
Qed.

(** One step of the extents loop folds [upd] over the points of the
    primitive. *)
Lemma extents_step_by_points b p :
  extents_step b p = fold_left upd_point (governing_points p) b.
Proof.
  unfold extents_step, governing_points.
  destruct ((tipo p =? "LINE")%string);
    [repeat case_match; reflexivity|].
  destruct ((tipo p =? "POLYLINE")%string); [reflexivity|].
  destruct ((tipo p =? "CIRCLE")%string); simpl;
    [repeat case_match; reflexivity|].
  destruct ((tipo p =? "ARC")%string); simpl;
    [repeat case_match; reflexivity|].
  destruct ((tipo p =? "TEXT")%string || (tipo p =? "MTEXT")%string)%bool;
    [repeat case_match; reflexivity|].
  destruct ((tipo p =? "HATCH")%string); [|reflexivity].
  apply (fold_left_concat upd_point).
Qed.

Lemma fold_extents_contains (ps : list Primitive) :
  forall b q,
    box_contains b q \/ (exists p, In p ps /\ In q (governing_points p)) ->
    box_contains (fold_left extents_step ps b) q.
Proof.
  induction ps as [|p rest IH]; intros b q; simpl.
  - intros [H|(p & [] & _)]. exact H.
  - intros H. apply IH. rewrite extents_step_by_points.
    destruct H as [H|(p' & [->|Hin] & Hq)].
    + left. apply fold_upd_contains. auto.
    + left. apply fold_upd_contains. auto.
    + right. eauto.
Qed.

Lemma fold_extents_idle (ps : list Primitive) :
  forall b, (forall p, In p ps -> governing_points p = []) ->
            fold_left extents_step ps b = b.
Proof.
  induction ps as [|p rest IH]; intros b Hall; simpl; [reflexivity|].
  rewrite extents_step_by_points, (Hall p) by (left; reflexivity).
  simpl. apply IH. intros p' Hin. apply Hall. right. exact Hin.
Qed.

Lemma extents_of_contributor (ps : list Primitive) (p : Primitive) (q : Pt2) :
  In p ps -> In q (governing_points p) ->
  exists box, calcular_extents_primitivas ps = Some box /\ box_contains box q.
Proof.
  intros Hp Hq. unfold calcular_extents_primitivas.
  pose proof (fold_extents_contains ps (PosInf, PosInf, NegInf, NegInf) q) as H.
  destruct (fold_left extents_step ps (PosInf, PosInf, NegInf, NegInf))
    as [[[xmin ymin] xmax] ymax].
  assert (Hc : box_contains (xmin, ymin, xmax, ymax) q) by (apply H; eauto).
  destruct xmin as [|x|].
  - eexists; split; [reflexivity|exact Hc].
  - eexists; split; [reflexivity|exact Hc].
  - destruct Hc as [[] _].
Qed.

(** The extents hold every point of every primitive: the ends of the
    lines, the vertices of polylines and hatch loops, the two corners of
    the square about each circle and arc, the insertion point of each
    text.  One contributing primitive is enough to get extents. *)
Theorem extents_contain_every_point
    (ps : list Primitive) (p : Primitive) (q : Pt2) :
  In p ps -> In q (governing_points p) ->
  exists box, calcular_extents_primitivas ps = Some box /\ box_contains box q.
Proof.
  apply extents_of_contributor.
Qed.

Lemma extents_contain_every_point_witness :
  In (prim_of "LINE" (GLine 0 0 10 5))
     [prim_of "CIRCLE" (GCircle 3 3 1); prim_of "LINE" (GLine 0 0 10 5)]
  /\ In (10, 5)%Q (governing_points (prim_of "LINE" (GLine 0 0 10 5)))
  /\ exists box,
       calcular_extents_primitivas
         [prim_of "CIRCLE" (GCircle 3 3 1); prim_of "LINE" (GLine 0 0 10 5)] =
       Some box
       /\ box_contains box (10, 5)%Q.
Proof.
  assert (H1 : In (prim_of "LINE" (GLine 0 0 10 5))
                 [prim_of "CIRCLE" (GCircle 3 3 1);
                  prim_of "LINE" (GLine 0 0 10 5)])
    by (right; left; reflexivity).
  assert (H2 : In (10, 5)%Q (governing_points (prim_of "LINE" (GLine 0 0 10 5))))
    by (right; left; reflexivity).
  split; [exact H1|]. split; [exact H2|].
  exact (extents_contain_every_point _ _ _ H1 H2).
Defined.

(** The calculator answers [None] exactly when no primitive contributes a
    point: an empty list, kinds it does not know, primitives without the
    keys of their kind, polylines and hatches without vertices. *)
Theorem no_extents_iff_no_points (ps : list Primitive) :
  calcular_extents_primitivas ps = None <->
  (forall p, In p ps -> governing_points p = []).
Proof.
  split.
  - intros Hnone p Hin.
    destruct (governing_points p) as [|q rest] eqn:Hg; [reflexivity|].
    destruct (extents_of_contributor ps p q Hin) as (box & Hbox & _).
    + rewrite Hg. left. reflexivity.
    + congruence.
  - intros Hall. unfold calcular_extents_primitivas.
    rewrite fold_extents_idle by exact Hall. reflexivity.
Qed.

(** ** Zoom to extents *)

Lemma py_max_spec (a b : Q) : (a <= py_max a b /\ b <= py_max a b)%Q.
Proof.
  unfold py_max. destruct (Qgtb b a) eqn:E.
  - apply Qgtb_true in E. split; [apply Qlt_le_weak; exact E|apply Qle_refl].
  - apply Qgtb_false in E. split; [apply Qle_refl|exact E].
Qed.

(** For a margin that is not negative the rectangle handed to the view
    has a width and a height above zero, also for extents that are a
    single point, and it holds both corners of the extents. *)
Theorem zoom_rectangle_holds_extents (xmin ymin xmax ymax margin : Q) :
  (0 <= margin)%Q ->
  exists x y w h,
    aplicar_zoom_extents (Some (xmin, ymin, xmax, ymax)) margin
    = Some (x, y, w, h)
    /\ (0 < w /\ 0 < h
        /\ x <= xmin /\ y <= ymin /\ xmax <= x + w /\ ymax <= y + h)%Q.
Proof.
  intros Hm. unfold aplicar_zoom_extents.
  destruct (py_max_spec (1 # 1000000) (xmax - xmin)) as [Hw1 Hw2].
  destruct (py_max_spec (1 # 1000000) (ymax - ymin)) as [Hh1 Hh2].
  set (w := py_max (1 # 1000000) (xmax - xmin)) in *.
  set (h := py_max (1 # 1000000) (ymax - ymin)) in *.
  assert (Hwm : (0 <= w * margin)%Q).
  { apply Qmult_le_0_compat; [|exact Hm]. eapply Qle_trans; [|exact Hw1]. discriminate. }
  assert (Hhm : (0 <= h * margin)%Q).
  { apply Qmult_le_0_compat; [|exact Hm]. eapply Qle_trans; [|exact Hh1]. discriminate. }
  do 4 eexists. split; [reflexivity|].
  assert (Heps : (0 < 1 # 1000000)%Q) by reflexivity.
  repeat split; Lqa.lra.
Qed.

Lemma zoom_rectangle_holds_extents_witness :
  (0 <= 0.08)%Q
  /\ exists x y w h,
       aplicar_zoom_extents (Some (5, 5, 5, 5)%Q) 0.08 = Some (x, y, w, h)
       /\ (0 < w /\ 0 < h
           /\ x <= 5 /\ y <= 5 /\ 5 <= x + w /\ 5 <= y + h)%Q.
Proof.
  split; [discriminate|].
  apply zoom_rectangle_holds_extents. discriminate.
Defined.

(** ** Grid snap *)

Lemma py_round_near (x : Q) :
  (inject_Z (py_round x) - (1 # 2) <= x /\ x <= inject_Z (py_round x) + (1 # 2))%Q.
Proof.
  unfold py_round.
  pose proof (Qfloor_le x) as Hlo. pose proof (Qlt_floor x) as Hhi.
  rewrite inject_Z_plus in Hhi. change (inject_Z 1) with 1%Q in Hhi.
  destruct (x - inject_Z (Qfloor x) ?= 1 # 2)%Q eqn:E.
  - apply Qeq_alt in E.
    destruct (Z.even (Qfloor x)); rewrite ?inject_Z_plus;
      change (inject_Z 1) with 1%Q; split; Lqa.lra.
  - apply Qlt_alt in E. split; Lqa.lra.
  - apply Qgt_alt in E. rewrite inject_Z_plus.
    change (inject_Z 1) with 1%Q. split; Lqa.lra.
Qed.

Lemma py_round_integer (k : Z) (x : Q) : (x == inject_Z k)%Q -> py_round x = k.
Proof.
  intros Hx. unfold py_round. rewrite (Qfloor_comp _ _ Hx), Qfloor_Z.
  assert (E : (x - inject_Z k ?= 1 # 2)%Q = Lt).
  { apply Qlt_alt. setoid_replace (x - inject_Z k)%Q with 0%Q using relation Qeq
      by (rewrite Hx; ring). reflexivity. }
  rewrite E. reflexivity.
Qed.

(** Snapping puts a point on the grid, on each axis no farther than half
    the spacing from where it was, and a snapped point snaps to itself. *)
Theorem grid_snap_nearest_and_idempotent (grid_minor : Z) (point : Pt2) :
  0 < grid_minor ->
  let s := _grid_snap grid_minor point in
  (exists i j, s = (inject_Z (i * grid_minor), inject_Z (j * grid_minor)))
  /\ (Qabs (fst s - fst point) <= inject_Z grid_minor / 2
      /\ Qabs (snd s - snd point) <= inject_Z grid_minor / 2)%Q
  /\ _grid_snap grid_minor s = s.
Proof.
  intros Hg. simpl.
  assert (Hgq : (0 < inject_Z grid_minor)%Q).
  { change 0%Q with (inject_Z 0). rewrite <- Zlt_Qlt. exact Hg. }
  assert (Hdist : forall x : Q,
            (Qabs (inject_Z (py_round (x / inject_Z grid_minor) * grid_minor) - x)
             <= inject_Z grid_minor / 2)%Q).
  { intros x. apply Qabs_Qle_condition.
    destruct (py_round_near (x / inject_Z grid_minor)) as [Hlo Hhi].
    rewrite inject_Z_mult.
    assert (Hx : (x == x / inject_Z grid_minor * inject_Z grid_minor)%Q).
    { field. intros H0. rewrite H0 in Hgq. discriminate. }
    remember (py_round (x / inject_Z grid_minor)) as r eqn:Hr. clear Hr.
    remember (x / inject_Z grid_minor)%Q as q eqn:Hq. clear Hq.
    remember (inject_Z grid_minor) as g eqn:Hgdef. clear Hgdef.
    assert (H1 : ((inject_Z r - (1 # 2)) * g <= q * g)%Q)
      by (apply Qmult_le_compat_r; [exact Hlo|apply Qlt_le_weak; exact Hgq]).
    assert (H2 : (q * g <= (inject_Z r + (1 # 2)) * g)%Q)
      by (apply Qmult_le_compat_r; [exact Hhi|apply Qlt_le_weak; exact Hgq]).
    assert (Hhalf : (g / 2 == (1 # 2) * g)%Q) by field.
    rewrite Hhalf.
    split; Lqa.lra. }
  assert (Hidem : forall k : Z,
            py_round (inject_Z (k * grid_minor) / inject_Z grid_minor) = k).
  { intros k. apply py_round_integer. rewrite inject_Z_mult. field.
    intros H0. rewrite H0 in Hgq. discriminate. }
  unfold _grid_snap; simpl.
  repeat split.
  - eauto.
  - apply Hdist.
  - apply Hdist.
  - rewrite !Hidem. reflexivity.
Qed.

Lemma grid_snap_nearest_and_idempotent_witness :
  0 < 25
  /\ (exists i j, _grid_snap 25 (37.5, -12.5)%Q
                  = (inject_Z (i * 25), inject_Z (j * 25)))
  /\ (Qabs (fst (_grid_snap 25 (37.5, -12.5)%Q) - 37.5) <= inject_Z 25 / 2
      /\ Qabs (snd (_grid_snap 25 (37.5, -12.5)%Q) - -12.5) <= inject_Z 25 / 2)%Q
  /\ _grid_snap 25 (_grid_snap 25 (37.5, -12.5)%Q) = _grid_snap 25 (37.5, -12.5)%Q.
Proof.
  split; [lia|].
  apply (grid_snap_nearest_and_idempotent 25 (37.5, -12.5)%Q). lia.
Defined.

(** Halfway between two grid lines the snap goes to the even multiple:
    37.5 snaps up to 50 and 12.5 snaps down to 0. *)
Example grid_snap_halfway :
  _grid_snap 25 (37.5, 12.5)%Q = (50, 0)%Q.
Proof. reflexivity. Qed.

(* ================================================================== *)
(** * Depth cap, level of detail and arc sampling *)

(** ** The depth cap *)

(** On floats the loop of an arc edge whose end angle is [1e17] and whose
    start angle is [1e18] never exits: the end angle is at or below the
    start angle and adding a full turn leaves it as it is. *)
Lemma advance_end_f_absorbed (fuel : nat) :
  advance_end_f fuel (radians_f (degrees_f 1e18)) (radians_f (degrees_f 1e17))
  = None.
Proof.
  induction fuel as [|fuel IH]; [reflexivity|].
  cbn [advance_end_f].
  replace (radians_f (degrees_f 1e17) <=? radians_f (degrees_f 1e18))%float
    with true by (vm_compute; reflexivity).
  replace (radians_f (degrees_f 1e17) + 2 * math_pi)%float
    with (radians_f (degrees_f 1e17)) by (vm_compute; reflexivity).
  exact IH.
Qed.

(** C5 (amended).  [depth] counts from 0 in model space and the guard is
    [depth > 8]: an INSERT met at depth 9 or deeper returns the state as
    it got it (nothing emitted, nothing raised), so nine nested levels of
    Inserts are expanded and no more; a block that inserts itself yields
    its line nine times.  With every arc edge of its hatches sampled, the
    pass returns on every document, cyclic block graphs included: ten
    units of fuel, one per nested call, are enough. *)
Theorem C5_depth_cap_and_termination
    (aci2rgb : Z -> option RGB) (doc : Document) (limitar : option Z)
    (expand_blocks : bool) (max_block_repeats max_total_after_blocks : Z)
    (incluir_texto incluir_hatch : bool) (fuel : nat) :
  (forall attrs name m t depth bn bc st,
     entity_to_prims aci2rgb doc limitar expand_blocks max_block_repeats
       max_total_after_blocks incluir_texto incluir_hatch (S fuel)
       (mkEntity attrs (INSERT name m)) t (9 + depth) bn bc st = Some st)
  /\ (exists ps,
        extraer_primitivas_basicas aci2rgb doc limitar expand_blocks
          max_block_repeats max_total_after_blocks incluir_texto incluir_hatch
          (10 + fuel) = Some ps)
  /\ option_map (@length Primitive)
       (extraer_primitivas_basicas aci_basic doc_cycle None true 8000 250000
          true true 10) = Some 9%nat.
Proof.
  split; [|split].
  - intros. apply insert_beyond_cap.
  - unfold extraer_primitivas_basicas.
    destruct (recorrido_returns aci2rgb doc limitar expand_blocks
                max_block_repeats max_total_after_blocks incluir_texto
                incluir_hatch (10 + fuel) (modelspace doc) estado_inicial)
      as [st ->]; [lia|].
    simpl; eauto.
  - vm_compute; reflexivity.
Qed.

(** C5 as stated fails: the pass does not return on every input.  For a
    HATCH arc edge with [start_angle = 1e18], [end_angle = 1e17] and
    [ccw = False], [hatch_loops] calls [discretizar_arco], whose loop
    [while a1 <= a0: a1 += 2 * math.pi] never exits on floats, whatever
    the number of iterations allowed. *)
Lemma C5_counterexample_arc_edge_loop_never_exits :
  ~ (exists fuel span, hatch_arc_span_f fuel 1e18 1e17 false = Some span).
Proof.
  intros (fuel & span & H).
  unfold hatch_arc_span_f, arc_span_f in H. cbn [negb] in H.
  rewrite advance_end_f_absorbed in H. discriminate H.
Qed.

(** On angles of everyday size the float loops exit at once or after one
    turn. *)
Example float_loops_on_small_angles :
  hatch_arc_span_f 3 0 0x1.921fb54442d18p+0 false
  = Some (radians_f (degrees_f 0), radians_f (degrees_f 0x1.921fb54442d18p+0))
  /\ arc_span_f 3 350 10 true
     = Some (radians_f 350, (radians_f 10 + 2 * math_pi)%float).
Proof. split; vm_compute; reflexivity. Qed.

(** ** Level of detail *)

Lemma detailed_not_box (view_scale : Q) :
  detailed view_scale = true -> box_tier view_scale = false.
Proof.
  unfold detailed, box_tier, Qgeb. intros H.
  apply Qltb_false. apply Qle_bool_iff in H.
  eapply Qle_trans; [|exact H]. discriminate.
Qed.

Lemma pattern_kept (lt : string) :
  match pattern_map lt with
  | Some (_ :: _) => pattern_map lt
  | _ => None
  end = pattern_map lt.
Proof.
  unfold pattern_map. repeat case_match; try reflexivity; discriminate.
Qed.

(** In the detailed tier the pen of a primitive is the one the words
    describe. *)
Lemma paint_prim_detailed view_scale simplify p :
  detailed view_scale = true ->
  paint_prim view_scale simplify p =
  SetPen (color p) (detailed_width view_scale (d_lw (data p)))
    (Qeq_bool (detailed_width view_scale (d_lw (data p))) 0)
    (detailed_dash (d_lt (data p)))
  :: draw_prim view_scale simplify p.
Proof.
  intros Hdet. unfold paint_prim, pen_width, detailed_width, dash_of,
    detailed_dash, LINEWEIGHT_SCALE_BASE.
  rewrite Hdet. cbn [negb]. f_equal. f_equal. apply pattern_kept.
Qed.

Lemma texts_of_app (a b : list Cmd) : texts_of (a ++ b) = texts_of a ++ texts_of b.
Proof. unfold texts_of. apply flat_map_app. Qed.

Lemma texts_of_lines {A : Type} (f : A -> Cmd) (l : list A) :
  (forall x, texts_of [f x] = []) -> texts_of (map f l) = [].
Proof.
  intros Hf. induction l as [|x l IH]; [reflexivity|].
  change (map f (x :: l)) with ([f x] ++ map f l).
  rewrite texts_of_app, Hf, IH. reflexivity.
Qed.

(** Below the text threshold no primitive draws a text. *)
Lemma draw_prim_hides_text view_scale simplify p :
  show_text view_scale = false ->
  texts_of (draw_prim view_scale simplify p) = [].
Proof.
  intros Hst. unfold draw_prim. rewrite Hst, andb_false_r.
  repeat case_match; try reflexivity.
  all: rewrite texts_of_app, texts_of_lines by reflexivity; reflexivity.
Qed.

Lemma paint_hides_text view_scale simplify rect primitives :
  show_text view_scale = false ->
  texts_of (paint view_scale simplify rect primitives) = [].
Proof.
  intros Hst. unfold paint.
  destruct (box_tier view_scale); [reflexivity|].
  induction primitives as [|p ps IH]; [reflexivity|].
  change (flat_map (paint_prim view_scale simplify) (p :: ps))
    with (paint_prim view_scale simplify p
          ++ flat_map (paint_prim view_scale simplify) ps).
  rewrite texts_of_app, IH, app_nil_r. unfold paint_prim.
  match goal with
  | |- texts_of (?c :: ?l) = _ => change (c :: l) with ([c] ++ l)
  end.
  rewrite texts_of_app, draw_prim_hides_text by exact Hst. reflexivity.
Qed.

(** C7.  At scale 0.02 [paint] draws the rectangle of the layer and
    nothing else, whatever the primitives.  From the detailed threshold
    on, so at 0.20 and at 0.40, [paint] gives each primitive in turn a pen
    of the detailed width, [(lw / 100) * 2.2] for a lineweight [lw > 0],
    times 1.15 when the scale is above 0.6 and 0.4 when that is thinner
    than 0.4, with the dash pattern of its linetype, and then draws it.
    At 0.20 [paint] draws no text at all; at 0.40 it draws the text of a
    TEXT primitive whose value is not blank. *)
Theorem C7_lod_policy :
  (forall simplify rect primitives,
     paint 0.02 simplify rect primitives =
     [SetPen (80, 90, 100) 0 false None; DrawRect rect])
  /\ (box_tier 0.20 = false /\ detailed 0.20 = true /\ show_text 0.20 = false)
  /\ (box_tier 0.40 = false /\ detailed 0.40 = true /\ show_text 0.40 = true)
  /\ (forall view_scale simplify rect primitives,
        detailed view_scale = true ->
        paint view_scale simplify rect primitives =
        flat_map
          (fun p =>
             SetPen (color p) (detailed_width view_scale (d_lw (data p)))
               (Qeq_bool (detailed_width view_scale (d_lw (data p))) 0)
               (detailed_dash (d_lt (data p)))
             :: draw_prim view_scale simplify p)
          primitives)
  /\ (forall simplify rect primitives,
        texts_of (paint 0.20 simplify rect primitives) = [])
  /\ (forall simplify rect lname col lw lwr lt ltr x y h rot value isb bn,
        paint 0.40 simplify rect
          [mkPrimitive "TEXT" lname col
             (mkData lw lwr lt ltr (GText x y h rot value)) isb bn] =
        SetPen col (detailed_width 0.40 lw)
          (Qeq_bool (detailed_width 0.40 lw) 0) (detailed_dash lt)
        :: (if strip_nonempty value
            then [DrawText x y rot (h * 0.40 * 1.4) col value]
            else []))
  /\ (forall simplify lname col d isb bn,
        draw_prim 0.20 simplify (mkPrimitive "TEXT" lname col d isb bn) = [])
  /\ (forall (view_scale : Q) (lw : positive),
        pen_width view_scale (Z.pos lw) =
        if detailed view_scale then
          let w := (inject_Z (Z.pos lw) / 100 * 2.2)%Q in
          let w := if Qgtb view_scale 0.6 then (w * 1.15)%Q else w in
          if Qltb w 0.4 then 0.4%Q else w
        else 0%Q)
  /\ (pen_width 0.20 25 == 0.55 /\ pen_width 0.7 25 == 0.6325
      /\ pen_width 0.20 13 == 0.4 /\ pen_width 0.05 25 == 0)%Q
  /\ (paint 0.20 true (0, 0, 1, 1)%Q
        [mkPrimitive "LINE" "0" (255, 0, 0)
           (mkData 25 25 "DASHED" "DASHED" (GLine 0 0 10 5)) false None;
         mkPrimitive "TEXT" "0" (255, 0, 0)
           (mkData 13 13 "CONTINUOUS" "BYLAYER" (GText 1 2 2.5 0 [72; 105]%N))
           false None] =
      [SetPen (255, 0, 0) (detailed_width 0.20 25) false (Some [6; 4]);
       DrawLine 0 0 10 5;
       SetPen (255, 0, 0) (detailed_width 0.20 13) false None]
      /\ (detailed_width 0.20 25 == 0.55 /\ detailed_width 0.20 13 == 0.4)%Q).
Proof.
  split; [reflexivity|].
  split; [repeat split; reflexivity|].
  split; [repeat split; reflexivity|].
  split.
  { intros view_scale simplify rect primitives Hdet. unfold paint.
    rewrite (detailed_not_box _ Hdet).
    apply flat_map_ext. intros p. apply paint_prim_detailed. exact Hdet. }
  split; [intros; apply paint_hides_text; reflexivity|].
  split.
  { intros. unfold paint. change (box_tier 0.40) with false. cbv iota.
    cbn [flat_map]. rewrite app_nil_r.
    rewrite paint_prim_detailed by reflexivity. f_equal.
    unfold draw_prim; simpl. destruct (strip_nonempty value); reflexivity. }
  split; [intros; reflexivity|].
  split.
  { intros. unfold pen_width. destruct (detailed view_scale); reflexivity. }
  split; [repeat split; reflexivity|].
  split; [vm_compute; reflexivity|split; reflexivity].
Qed.

(** The detailed tier at scale 0.20, on a line and a text. *)
Lemma C7_witness_detailed_at_0_20 :
  detailed 0.20 = true
  /\ paint 0.20 false (0, 0, 1, 1)%Q
       [prim_of "LINE" (GLine 0 0 10 5); prim_of "TEXT" (GText 1 2 2.5 0 [72]%N)] =
     flat_map
       (fun p =>
          SetPen (color p) (detailed_width 0.20 (d_lw (data p)))
            (Qeq_bool (detailed_width 0.20 (d_lw (data p))) 0)
            (detailed_dash (d_lt (data p)))
          :: draw_prim 0.20 false p)
       [prim_of "LINE" (GLine 0 0 10 5); prim_of "TEXT" (GText 1 2 2.5 0 [72]%N)].
Proof.
  split; [reflexivity|].
  apply (proj1 (proj2 (proj2 (proj2 C7_lod_policy)))). reflexivity.
Defined.

(** White space as Python sees it: a value made of U+00A0 or of U+3000 is
    blank, a letter is not. *)
Example blank_values :
  strip_nonempty [160]%N = false /\ strip_nonempty [32; 12288; 133]%N = false
  /\ strip_nonempty [32; 65]%N = true.
Proof. repeat split; reflexivity. Qed.

(** ** Arc sampling *)

Section ArcGeneral.

Local Open Scope R_scope.

(** A number of full turns that passes [x], with a bound on it. *)
Lemma turns_above_bounded (x B : R) :
  x <= B -> 0 <= B ->
  exists n : nat, x < INR n * (2 * PI) /\ INR n <= B / (2 * PI) + 1.
Proof.
  intros HxB HB.
  pose proof two_pi_pos as Hpi.
  destruct (archimed (x / (2 * PI))) as [Hup Hup1].
  assert (Hy : x / (2 * PI) <= B / (2 * PI)).
  { unfold Rdiv. apply Rmult_le_compat_r; [|exact HxB].
    apply Rlt_le, Rinv_0_lt_compat, Hpi. }
  assert (HB' : 0 <= B / (2 * PI)).
  { unfold Rdiv. apply Rmult_le_pos; [exact HB|].
    apply Rlt_le, Rinv_0_lt_compat, Hpi. }
  exists (Z.to_nat (up (x / (2 * PI)))).
  assert (Hx : x = x / (2 * PI) * (2 * PI)) by (field; lra).
  rewrite INR_IZR_INZ.
  destruct (Z_le_gt_dec 0 (up (x / (2 * PI)))) as [Hz|Hz].
  - rewrite Z2Nat.id by exact Hz. split; [|clear Hx; lra].
    rewrite Hx at 1. apply Rmult_lt_compat_r; [exact Hpi|lra].
  - replace (Z.to_nat (up (x / (2 * PI)))) with 0%nat by lia.
    change (Z.of_nat 0) with 0%Z.
    split; [|clear Hx; lra].
    rewrite Hx at 1. apply Rmult_lt_compat_r; [exact Hpi|].
    apply Rlt_trans with (IZR (up (x / (2 * PI)))); [lra|].
    apply IZR_lt. lia.
Qed.

(** Two sane angles lie at most [2e15] degrees apart, fewer than [1e13]
    full turns. *)
Lemma sane_angles_apart (d1 d2 : R) :
  sane_angle d1 -> sane_angle d2 ->
  radians d1 - radians d2 <= 2000000000000000 * (PI / 180)
  /\ 0 <= 2000000000000000 * (PI / 180)
  /\ 2000000000000000 * (PI / 180) / (2 * PI) + 2 <= 10000000000000.
Proof.
  unfold sane_angle, radians. intros H1 H2.
  pose proof PI_RGT_0 as Hpi.
  assert (H1' : -1000000000000000 <= d1 <= 1000000000000000)
    by (unfold Rabs in H1; destruct (Rcase_abs d1); lra).
  assert (H2' : -1000000000000000 <= d2 <= 1000000000000000)
    by (unfold Rabs in H2; destruct (Rcase_abs d2); lra).
  clear H1 H2.
  assert (Hc : 0 < PI / 180) by lra.
  repeat split.
  - rewrite <- Rmult_minus_distr_r.
    apply Rmult_le_compat_r; [lra|lra].
  - apply Rmult_le_pos; lra.
  - replace (2000000000000000 * (PI / 180) / (2 * PI))
      with (1000000000000000 / 180) by (field; lra).
    lra.
Qed.



Lemma sane_angle_small (d : R) : -360 <= d <= 360 -> sane_angle d.
Proof.
  intros [H1 H2]. unfold sane_angle, Rabs.
  destruct (Rcase_abs d); lra.
Qed.

End ArcGeneral.



(** For angles of a magnitude at which the float loop advances, and for
    every centre, radius, direction and segment count, the sampler
    returns, within [1e13] turns of its loop, a polyline of
    [max(4, seg) + 1] points that all lie on the circle, starts at the
    point of the start angle and ends at the point of the end angle,
    whatever full turns the normalising loop added. *)
Theorem arc_polyline_on_circle_between_its_angles :
  forall (cx cy r start_deg end_deg : R) (ccw : bool) (seg : nat),
  sane_angle start_deg -> sane_angle end_deg ->
  exists n : nat,
    (INR n <= 10000000000000)%R
    /\ forall fuel, exists pts,
         discretizar_arco (n + fuel) cx cy r start_deg end_deg ccw seg = Some pts
         /\ length pts = S (Nat.max 4 seg)
         /\ Forall (on_circle cx cy r) pts
         /\ head pts = Some (point_at cx cy r (radians start_deg))
         /\ last pts = Some (point_at cx cy r (radians end_deg)).
Proof.
  intros cx cy r start_deg end_deg ccw seg Hs He.
  unfold discretizar_arco, arc_span.
  destruct ccw.
  - destruct (sane_angles_apart start_deg end_deg Hs He) as (Hd & HB & Hn).
    destruct (turns_above_bounded _ _ Hd HB) as (n & Hlt & Hbound).
    destruct (advance_end_turns n _ _ Hlt) as (k & _ & _ & Hrun).
    exists (S n). rewrite S_INR. split; [lra|].
    intros fuel. rewrite Hrun. simpl option_map.
    eexists. split; [reflexivity|].
    destruct (sampled_shape cx cy r (radians start_deg)
                (radians end_deg + INR k * (2 * PI)) seg)
      as (H1 & H2 & H3 & H4).
    rewrite point_at_turns in H4. auto.
  - destruct (sane_angles_apart end_deg start_deg He Hs) as (Hd & HB & Hn).
    destruct (turns_above_bounded _ _ Hd HB) as (n & Hlt & Hbound).
    destruct (advance_start_turns n _ _ Hlt) as (k & _ & _ & Hrun).
    exists (S n). rewrite S_INR. split; [lra|].
    intros fuel. rewrite Hrun. simpl option_map.
    eexists. split; [reflexivity|].
    destruct (sampled_shape cx cy r
                (radians start_deg + INR k * (2 * PI)) (radians end_deg) seg)
      as (H1 & H2 & H3 & H4).
    rewrite point_at_turns in H3. auto.
Qed.

Lemma arc_polyline_on_circle_between_its_angles_witness :
  sane_angle 350 /\ sane_angle 10
  /\ exists n : nat,
       (INR n <= 10000000000000)%R
       /\ forall fuel, exists pts,
            discretizar_arco (n + fuel) 0 0 1 350 10 false 28 = Some pts
            /\ length pts = S (Nat.max 4 28)
            /\ Forall (on_circle 0 0 1) pts
            /\ head pts = Some (point_at 0 0 1 (radians 350))
            /\ last pts = Some (point_at 0 0 1 (radians 10)).
Proof.
  assert (H350 : sane_angle 350) by (apply sane_angle_small; lra).
  assert (H10 : sane_angle 10) by (apply sane_angle_small; lra).
  split; [exact H350|]. split; [exact H10|].
  exact (arc_polyline_on_circle_between_its_angles 0%R 0%R 1%R 350%R 10%R
           false 28%nat H350 H10).
Defined.
